(** * Data-storage program client: codecs and instruction builders

    A shallow embedding of [testCodecs/getCodecs.mts] and of the instruction
    builders that accompany it ([getIxs]).  The TypeScript code is written
    with the combinators of the [@solana/codecs] package; each combinator
    the program calls is embedded here under its own name, with the
    behaviour the package gives it (buffers are zero-initialised byte
    arrays that encoders write into at an offset; decoders read at an
    offset and return the value with the next offset; failures are thrown
    errors, embedded as the [Err] results of a small error monad). *)

From Stdlib Require Import String Ascii ZArith List Bool Lia.
From Stdlib.Strings Require Import Byte.
Import ListNotations.
Open Scope Z_scope.

(** ** Errors and the result monad *)

(** The errors the codecs can throw: the four [SolanaError] codes that the
    combinators used here raise, and the JavaScript [RangeError] of typed
    arrays. *)
Inductive CodecError : Type :=
| InvalidByteLength           (* CODECS__INVALID_BYTE_LENGTH *)
| CannotDecodeEmptyByteArray  (* CODECS__CANNOT_DECODE_EMPTY_BYTE_ARRAY *)
| NumberOutOfRange            (* CODECS__NUMBER_OUT_OF_RANGE *)
| InvalidNumberOfItems        (* CODECS__INVALID_NUMBER_OF_ITEMS *)
| RangeError.                 (* typed-array allocation or [set] out of bounds *)

Inductive result (A : Type) : Type :=
| Ok (a : A)
| Err (e : CodecError).
Arguments Ok {A} a.
Arguments Err {A} e.

Definition bind {A B : Type} (r : result A) (k : A -> result B) : result B :=
  match r with
  | Ok a => k a
  | Err e => Err e
  end.

Notation "x <- r ;; k" := (bind r (fun x => k))
  (at level 61, r at next level, right associativity).
Notation "' p <- r ;; k" := (bind r (fun x => let p := x in k))
  (at level 61, p pattern, r at next level, right associativity).

Definition is_ok {A : Type} (r : result A) : bool :=
  match r with Ok _ => true | Err _ => false end.

(** ** Bytes, byte arrays and JavaScript strings *)

Definition bytes : Type := list byte.

Definition byte_to_Z (b : byte) : Z := Z.of_N (Byte.to_N b).

(** The byte a [DataView] stores for an integer: its low eight bits. *)
Definition byte_of_Z (z : Z) : byte :=
  match Byte.of_N (Z.to_N (z mod 256)) with
  | Some b => b
  | None => x00
  end.

(** [new Uint8Array(n)]: [n] zero bytes; a negative length is a
    [RangeError]. *)
Definition new_Uint8Array (n : Z) : result bytes :=
  if n <? 0 then Err RangeError else Ok (repeat x00 (Z.to_nat n)).

(** [buf.set(src, offset)]: overwrites [length src] bytes of [buf] from
    [offset]; a source that does not fit is a [RangeError]. *)
Definition set_bytes (buf src : bytes) (offset : nat) : result bytes :=
  if (offset + length src <=? length buf)%nat
  then Ok (firstn offset buf ++ src ++ skipn (offset + length src) buf)
  else Err RangeError.

(** [bytes.slice(start, end)] for [start <= end]. *)
Definition slice (bs : bytes) (start stop : nat) : bytes :=
  firstn (stop - start) (skipn start bs).

(** A JavaScript string is a sequence of UTF-16 code units. *)
Definition jsstring : Type := list Z.

(** The string written as an ASCII literal. *)
Definition js (s : string) : jsstring :=
  map (fun a => Z.of_N (N_of_ascii a)) (list_ascii_of_string s).

(** *** [TextEncoder]: UTF-16 code units to UTF-8 bytes *)

Definition is_high_surrogate (c : Z) : bool := (0xD800 <=? c) && (c <=? 0xDBFF).
Definition is_low_surrogate (c : Z) : bool := (0xDC00 <=? c) && (c <=? 0xDFFF).

(** Conversion of a string to scalar values: a surrogate pair is one
    supplementary code point, a lone surrogate becomes U+FFFD. *)
Fixpoint to_scalars (s : jsstring) : list Z :=
  match s with
  | [] => []
  | c :: rest =>
      if is_high_surrogate c then
        match rest with
        | d :: rest' =>
            if is_low_surrogate d
            then (0x10000 + Z.shiftl (c - 0xD800) 10 + (d - 0xDC00)) :: to_scalars rest'
            else 0xFFFD :: to_scalars rest
        | [] => [0xFFFD]
        end
      else if is_low_surrogate c then 0xFFFD :: to_scalars rest
      else c :: to_scalars rest
  end.

(** The UTF-8 bytes of one scalar value. *)
Definition utf8_encode_scalar (c : Z) : list Z :=
  if c <=? 0x7F then [c]
  else if c <=? 0x7FF then
    [Z.lor 0xC0 (Z.shiftr c 6); Z.lor 0x80 (Z.land c 0x3F)]
  else if c <=? 0xFFFF then
    [Z.lor 0xE0 (Z.shiftr c 12);
     Z.lor 0x80 (Z.land (Z.shiftr c 6) 0x3F);
     Z.lor 0x80 (Z.land c 0x3F)]
  else
    [Z.lor 0xF0 (Z.shiftr c 18);
     Z.lor 0x80 (Z.land (Z.shiftr c 12) 0x3F);
     Z.lor 0x80 (Z.land (Z.shiftr c 6) 0x3F);
     Z.lor 0x80 (Z.land c 0x3F)].

Definition utf8_encode_scalars (cs : list Z) : list Z :=
  flat_map utf8_encode_scalar cs.

(** [new TextEncoder().encode(s)]. *)
Definition TextEncoder_encode (s : jsstring) : bytes :=
  map byte_of_Z (utf8_encode_scalars (to_scalars s)).

(** ** Encoders *)

(** An encoder has either a fixed size or a size that depends on the
    value, and writes a value into a byte array at an offset, returning
    the offset after it. *)
Record Encoder (T : Type) : Type := mkEncoder {
  enc_fixedSize : option Z;
  enc_getSizeFromValue : T -> Z;
  enc_write : T -> bytes -> nat -> result (bytes * nat)
}.
Arguments mkEncoder {T}.
Arguments enc_fixedSize {T}.
Arguments enc_getSizeFromValue {T}.
Arguments enc_write {T}.

Definition getEncodedSize {T : Type} (v : T) (e : Encoder T) : Z :=
  match enc_fixedSize e with
  | Some n => n
  | None => enc_getSizeFromValue e v
  end.

(** [encoder.encode(value)]: allocate a zeroed array of the encoded size,
    write the value at offset 0, return the array. *)
Definition encode {T : Type} (e : Encoder T) (v : T) : result bytes :=
  buf <- new_Uint8Array (getEncodedSize v e) ;;
  '(buf', _) <- enc_write e v buf 0%nat ;;
  Ok buf'.

(** [getU8Encoder()]: one byte, the value must be in 0..255. *)
Definition getU8Encoder : Encoder Z :=
  mkEncoder (Some 1) (fun _ => 1)
    (fun v buf offset =>
       if (0 <=? v) && (v <=? 255) then
         buf' <- set_bytes buf [byte_of_Z v] offset ;;
         Ok (buf', (offset + 1)%nat)
       else Err NumberOutOfRange).

(** [getUtf8Encoder()]: the UTF-8 bytes of the string, variable size. *)
Definition getUtf8Encoder : Encoder jsstring :=
  mkEncoder None (fun v => Z.of_nat (length (TextEncoder_encode v)))
    (fun v buf offset =>
       let bytesToAdd := TextEncoder_encode v in
       buf' <- set_bytes buf bytesToAdd offset ;;
       Ok (buf', (offset + length bytesToAdd)%nat)).

(** [fixEncoderSize(encoder, fixedBytes)]: encodes with the nested
    encoder, keeps at most the first [fixedBytes] bytes, writes them and
    advances by [fixedBytes] whatever was written. *)
Definition fixEncoderSize {T : Type} (encoder : Encoder T) (fixedBytes : nat)
  : Encoder T :=
  mkEncoder (Some (Z.of_nat fixedBytes)) (fun _ => Z.of_nat fixedBytes)
    (fun v buf offset =>
       variableByteArray <- encode encoder v ;;
       let fixedByteArray :=
         if (fixedBytes <? length variableByteArray)%nat
         then slice variableByteArray 0 fixedBytes
         else variableByteArray in
       buf' <- set_bytes buf fixedByteArray offset ;;
       Ok (buf', (offset + fixedBytes)%nat)).

(** The write of a sequence of items, each at the offset the previous one
    returned ([array.forEach] / [fields.forEach]). *)
Fixpoint write_each {T : Type} (w : T -> bytes -> nat -> result (bytes * nat))
    (items : list T) (buf : bytes) (offset : nat) : result (bytes * nat) :=
  match items with
  | [] => Ok (buf, offset)
  | x :: rest =>
      '(buf', offset') <- w x buf offset ;;
      write_each w rest buf' offset'
  end.

Definition computeArrayLikeCodecSize (size : Z) (itemSize : option Z)
  : option Z :=
  if size =? 0 then Some 0
  else match itemSize with
       | Some n => Some (n * size)
       | None => None
       end.

(** [getArrayEncoder(item, { size })] with a numeric [size]: the array
    must have exactly [size] items; no length prefix is written. *)
Definition getArrayEncoder {T : Type} (item : Encoder T) (size : Z)
  : Encoder (list T) :=
  mkEncoder (computeArrayLikeCodecSize size (enc_fixedSize item))
    (fun array => fold_left (fun all value => all + getEncodedSize value item) array 0)
    (fun array buf offset =>
       if size =? Z.of_nat (length array)
       then write_each (enc_write item) array buf offset
       else Err InvalidNumberOfItems).

(** A field of a struct encoder: the codec applied to [struct[key]]. *)
Definition field {S T : Type} (get : S -> T) (codec : Encoder T) : Encoder S :=
  mkEncoder (enc_fixedSize codec)
    (fun struct => enc_getSizeFromValue codec (get struct))
    (fun struct => enc_write codec (get struct)).

Fixpoint sumCodecSizes (sizes : list (option Z)) : option Z :=
  match sizes with
  | [] => Some 0
  | None :: _ => None
  | Some n :: rest =>
      match sumCodecSizes rest with
      | Some m => Some (n + m)
      | None => None
      end
  end.

(** [getStructEncoder(fields)]: the fields in order, one after the
    other. *)
Definition getStructEncoder {S : Type} (fields : list (string * Encoder S))
  : Encoder S :=
  mkEncoder (sumCodecSizes (map (fun f => enc_fixedSize (snd f)) fields))
    (fun value =>
       fold_left (fun all one => all + one)
         (map (fun f => getEncodedSize value (snd f)) fields) 0)
    (fun struct buf offset =>
       write_each (fun f => enc_write (snd f) struct) fields buf offset).

(** [transformEncoder(encoder, unmap)]. *)
Definition transformEncoder {Old New : Type} (encoder : Encoder Old)
    (unmap : New -> Old) : Encoder New :=
  mkEncoder (enc_fixedSize encoder)
    (fun value => enc_getSizeFromValue encoder (unmap value))
    (fun value => enc_write encoder (unmap value)).

(** ** Instruction payload encoders ([getCodecs.mts]) *)

(** The struct the Create encoder writes. *)
Record CreateInstructionData : Type := {
  cd_discriminator : Z;
  cd_label : jsstring;
  cd_data : list Z
}.

(** The value a caller hands to the Create encoder: the transform is
    untyped, so the object may or may not carry a [discriminator] of its
    own. *)
Record CreateInstructionDataArgs : Type := {
  ca_discriminator : option Z;
  ca_label : jsstring;
  ca_data : list Z
}.

Definition getCreateDataStorageAccountInstructionDataEncoder (data_size : Z)
  : Encoder CreateInstructionDataArgs :=
  let ix_create_new_dsa :=
    getStructEncoder
      [ ("discriminator"%string, field cd_discriminator getU8Encoder);
        ("label"%string, field cd_label (fixEncoderSize getUtf8Encoder 30));
        ("data"%string, field cd_data (getArrayEncoder getU8Encoder data_size)) ] in
  transformEncoder ix_create_new_dsa
    (fun value =>
       {| cd_discriminator := 0;
          cd_label := ca_label value;
          cd_data := ca_data value |}).

Record EditInstructionData : Type := {
  ed_discriminator : Z;
  ed_newData : list Z
}.

Record EditInstructionDataArgs : Type := {
  ea_discriminator : option Z;
  ea_newData : list Z
}.

Definition getEditDataStorageAccountInstructionDataEncoder (data_size : Z)
  : Encoder EditInstructionDataArgs :=
  let ix_edit_dsa :=
    getStructEncoder
      [ ("discriminator"%string, field ed_discriminator getU8Encoder);
        ("newData"%string, field ed_newData (getArrayEncoder getU8Encoder data_size)) ] in
  transformEncoder ix_edit_dsa
    (fun value =>
       {| ed_discriminator := 1;
          ed_newData := ea_newData value |}).

Record CloseInstructionData : Type := {
  xd_discriminator : Z
}.

Record CloseInstructionDataArgs : Type := {
  xa_discriminator : option Z
}.

(** The Close encoder is called with [null]: the argument is [None] for
    [null] and [Some] object otherwise; spreading either gives an object
    whose [discriminator] is then set to 2. *)
Definition getCloseDataStorageAccountInstructionDataEncoder
  : Encoder (option CloseInstructionDataArgs) :=
  let ix_close_dsa :=
    getStructEncoder
      [ ("discriminator"%string, field xd_discriminator getU8Encoder) ] in
  transformEncoder ix_close_dsa
    (fun value => {| xd_discriminator := 2 |}).

(** ** Instruction builders ([getIxs]) *)

Definition Address : Type := jsstring.

Inductive AccountRole : Type :=
| READONLY
| WRITABLE
| READONLY_SIGNER
| WRITABLE_SIGNER.

Record AccountMeta : Type := {
  address : Address;
  role : AccountRole
}.

Record IInstruction : Type := {
  programAddress : Address;
  accounts : list AccountMeta;
  data : bytes
}.

Definition SYSTEM_PROGRAM_ID : Address :=
  js "11111111111111111111111111111111".
Definition DATA_STORAGE_PROGRAM_ID : Address :=
  js "DSAgnFyNE53P9m5vz9ALojPQwbtaPjwzPa61ZN1oe7mG".

(** A [Uint8Array] read as an array of numbers. *)
Definition numbers_of (a : bytes) : list Z := map byte_to_Z a.

Record CreateParams : Type := {
  cp_new_data_storage_pda : Address;
  cp_data_storage_authority : Address;
  cp_funding_account : Address;
  cp_label : jsstring;
  cp_data : bytes
}.

Definition getCreateDataStorageAccountInstruction (params : CreateParams)
  : result IInstruction :=
  let new_data_storage_pda := cp_new_data_storage_pda params in
  let data_storage_authority := cp_data_storage_authority params in
  let funding_account := cp_funding_account params in
  let label := cp_label params in
  let data := cp_data params in
  payload <-
    encode
      (getCreateDataStorageAccountInstructionDataEncoder (Z.of_nat (length data)))
      {| ca_discriminator := None;
         ca_label := label;
         ca_data := numbers_of data |} ;;
  Ok {| programAddress := DATA_STORAGE_PROGRAM_ID;
        accounts :=
          [ {| address := new_data_storage_pda; role := WRITABLE |};
            {| address := data_storage_authority; role := READONLY_SIGNER |};
            {| address := funding_account; role := WRITABLE_SIGNER |};
            {| address := SYSTEM_PROGRAM_ID; role := READONLY |} ];
        data := payload |}.

Record EditEqualParams : Type := {
  ee_data_storage_pda : Address;
  ee_data_storage_authority : Address;
  ee_new_data : bytes
}.

Definition getEditDataStorageAccountWithNewDataLenIsEqualToOldDataLenInstruction
    (params : EditEqualParams) : result IInstruction :=
  let data_storage_authority := ee_data_storage_authority params in
  let data_storage_pda := ee_data_storage_pda params in
  let new_data := ee_new_data params in
  payload <-
    encode
      (getEditDataStorageAccountInstructionDataEncoder (Z.of_nat (length new_data)))
      {| ea_discriminator := None; ea_newData := numbers_of new_data |} ;;
  Ok {| programAddress := DATA_STORAGE_PROGRAM_ID;
        accounts :=
          [ {| address := data_storage_pda; role := WRITABLE |};
            {| address := data_storage_authority; role := READONLY_SIGNER |} ];
        data := payload |}.

Record EditLessParams : Type := {
  el_data_storage_pda : Address;
  el_data_storage_authority : Address;
  el_rent_receiver_account : Address;
  el_new_data : bytes
}.

Definition getEditDataStorageAccountWithNewDataLenLessIsThanOldDataLenInstruction
    (params : EditLessParams) : result IInstruction :=
  let data_storage_authority := el_data_storage_authority params in
  let data_storage_pda := el_data_storage_pda params in
  let rent_receiver_account := el_rent_receiver_account params in
  let new_data := el_new_data params in
  payload <-
    encode
      (getEditDataStorageAccountInstructionDataEncoder (Z.of_nat (length new_data)))
      {| ea_discriminator := None; ea_newData := numbers_of new_data |} ;;
  Ok {| programAddress := DATA_STORAGE_PROGRAM_ID;
        accounts :=
          [ {| address := data_storage_pda; role := WRITABLE |};
            {| address := data_storage_authority; role := READONLY_SIGNER |};
            {| address := rent_receiver_account; role := WRITABLE |} ];
        data := payload |}.

Record EditBiggerParams : Type := {
  eb_data_storage_pda : Address;
  eb_data_storage_authority : Address;
  eb_funding_account : Address;
  eb_new_data : bytes
}.

Definition getEditDataStorageAccountWithNewDataLenIsBiggerThanOldDataLenInstruction
    (params : EditBiggerParams) : result IInstruction :=
  let data_storage_authority := eb_data_storage_authority params in
  let data_storage_pda := eb_data_storage_pda params in
  let funding_account := eb_funding_account params in
  let new_data := eb_new_data params in
  payload <-
    encode
      (getEditDataStorageAccountInstructionDataEncoder (Z.of_nat (length new_data)))
      {| ea_discriminator := None; ea_newData := numbers_of new_data |} ;;
  Ok {| programAddress := DATA_STORAGE_PROGRAM_ID;
        accounts :=
          [ {| address := data_storage_pda; role := WRITABLE |};
            {| address := data_storage_authority; role := READONLY_SIGNER |};
            {| address := funding_account; role := WRITABLE_SIGNER |};
            {| address := SYSTEM_PROGRAM_ID; role := READONLY |} ];
        data := payload |}.

Record CloseParams : Type := {
  cl_data_storage_pda : Address;
  cl_data_storage_authority : Address;
  cl_rent_exempt_receiver_account : Address
}.

Definition getCloseDataStorageAccountInstruction (params : CloseParams)
  : result IInstruction :=
  let data_storage_authority := cl_data_storage_authority params in
  let data_storage_pda := cl_data_storage_pda params in
  let rent_exempt_receiver_account := cl_rent_exempt_receiver_account params in
  payload <- encode getCloseDataStorageAccountInstructionDataEncoder None ;;
  Ok {| programAddress := DATA_STORAGE_PROGRAM_ID;
        accounts :=
          [ {| address := data_storage_pda; role := WRITABLE |};
            {| address := data_storage_authority; role := READONLY_SIGNER |};
            {| address := rent_exempt_receiver_account; role := WRITABLE |} ];
        data := payload |}.


(** ** Decoders *)

(** A decoder may have a fixed size, and reads a value from a byte array
    at an offset, returning it with the offset after it. *)
Record Decoder (T : Type) : Type := mkDecoder {
  dec_fixedSize : option nat;
  dec_read : bytes -> nat -> result (T * nat)
}.
Arguments mkDecoder {T}.
Arguments dec_fixedSize {T}.
Arguments dec_read {T}.

(** [decoder.decode(bytes)]: read at offset 0 and drop the final offset;
    bytes left after it are not looked at. *)
Definition decode {T : Type} (d : Decoder T) (bs : bytes) : result T :=
  '(value, _) <- dec_read d bs 0%nat ;;
  Ok value.

Definition assertByteArrayIsNotEmptyForCodec (bs : bytes) (offset : nat)
  : result unit :=
  if Z.of_nat (length bs) - Z.of_nat offset <=? 0
  then Err CannotDecodeEmptyByteArray
  else Ok tt.

Definition assertByteArrayHasEnoughBytesForCodec (expected : nat) (bs : bytes)
    (offset : nat) : result unit :=
  if Z.of_nat (length bs) - Z.of_nat offset <? Z.of_nat expected
  then Err InvalidByteLength
  else Ok tt.

(** The unsigned little-endian value of a byte sequence. *)
Fixpoint le_unsigned (bs : bytes) : Z :=
  match bs with
  | [] => 0
  | b :: rest => byte_to_Z b + 256 * le_unsigned rest
  end.

(** Its two's-complement reading. *)
Definition le_signed (bs : bytes) : Z :=
  let u := le_unsigned bs in
  let w := 8 * Z.of_nat (length bs) in
  if u <? 2 ^ (w - 1) then u else u - 2 ^ w.

(** The number decoders: the array must hold [size] bytes from the
    offset, which a [DataView] getter then reads. *)
Definition numberDecoder (size : nat) (get : bytes -> Z) : Decoder Z :=
  mkDecoder (Some size)
    (fun bs offset =>
       _ <- assertByteArrayIsNotEmptyForCodec bs offset ;;
       _ <- assertByteArrayHasEnoughBytesForCodec size bs offset ;;
       Ok (get (slice bs offset (offset + size)), (offset + size)%nat)).

Definition getU8Decoder : Decoder Z := numberDecoder 1 le_unsigned.
Definition getU16Decoder : Decoder Z := numberDecoder 2 le_unsigned.
Definition getI64Decoder : Decoder Z := numberDecoder 8 le_signed.

(** [transformDecoder(decoder, map)]. *)
Definition transformDecoder {Old New : Type} (decoder : Decoder Old)
    (map : Old -> New) : Decoder New :=
  mkDecoder (dec_fixedSize decoder)
    (fun bs offset =>
       '(value, newOffset) <- dec_read decoder bs offset ;;
       Ok (map value, newOffset)).

(** [getBooleanDecoder()]: a [u8] that is [true] exactly when it is 1. *)
Definition getBooleanDecoder : Decoder bool :=
  transformDecoder getU8Decoder (fun value => value =? 1).

(** The loop of the array decoder: [n] items, one after the other. *)
Fixpoint read_items {T : Type} (item : Decoder T) (n : nat) (bs : bytes)
    (offset : nat) : result (list T * nat) :=
  match n with
  | O => Ok ([], offset)
  | S n' =>
      '(value, newOffset) <- dec_read item bs offset ;;
      '(array, lastOffset) <- read_items item n' bs newOffset ;;
      Ok (value :: array, lastOffset)
  end.

(** [getArrayDecoder(item, { size })] with a number decoder as [size]:
    when no byte is left at the offset the array is empty, otherwise the
    prefix gives the number of items to read. *)
Definition getArrayDecoder {T : Type} (item : Decoder T) (size : Decoder Z)
  : Decoder (list T) :=
  mkDecoder None
    (fun bs offset =>
       if (length (skipn offset bs) =? 0)%nat then Ok ([], offset)
       else
         '(resolvedSize, newOffset) <- dec_read size bs offset ;;
         read_items item (Z.to_nat resolvedSize) bs newOffset).

(** [fixBytes]: pad with zeros or cut to a length. *)
Definition fixBytes (bs : bytes) (n : nat) : bytes :=
  firstn n (bs ++ repeat x00 (n - length bs)).

(** [fixDecoderSize(decoder, fixedBytes)]: the nested decoder sees only
    the [fixedBytes] bytes from the offset. *)
Definition fixDecoderSize {T : Type} (decoder : Decoder T) (fixedBytes : nat)
  : Decoder T :=
  mkDecoder (Some fixedBytes)
    (fun bs offset =>
       _ <- assertByteArrayHasEnoughBytesForCodec fixedBytes bs offset ;;
       let bs1 :=
         if (0 <? offset)%nat || (fixedBytes <? length bs)%nat
         then slice bs offset (offset + fixedBytes)
         else bs in
       let bs2 :=
         match dec_fixedSize decoder with
         | Some n => fixBytes bs1 n
         | None => bs1
         end in
       '(value, _) <- dec_read decoder bs2 0%nat ;;
       Ok (value, (offset + fixedBytes)%nat)).

(** *** [TextDecoder]: UTF-8 bytes to UTF-16 code units *)

(** The state of the UTF-8 decoder. *)
Record utf8_state : Type := {
  u_code_point : Z;
  u_bytes_needed : nat;
  u_bytes_seen : nat;
  u_lower : Z;
  u_upper : Z
}.

Definition utf8_initial : utf8_state :=
  {| u_code_point := 0; u_bytes_needed := 0; u_bytes_seen := 0;
     u_lower := 0x80; u_upper := 0xBF |}.

(** A byte when no continuation is pending. *)
Definition utf8_lead (b : Z) : utf8_state * list Z :=
  if b <=? 0x7F then (utf8_initial, [b])
  else if (0xC2 <=? b) && (b <=? 0xDF) then
    ({| u_code_point := Z.land b 0x1F; u_bytes_needed := 1; u_bytes_seen := 0;
        u_lower := 0x80; u_upper := 0xBF |}, [])
  else if (0xE0 <=? b) && (b <=? 0xEF) then
    ({| u_code_point := Z.land b 0xF; u_bytes_needed := 2; u_bytes_seen := 0;
        u_lower := if b =? 0xE0 then 0xA0 else 0x80;
        u_upper := if b =? 0xED then 0x9F else 0xBF |}, [])
  else if (0xF0 <=? b) && (b <=? 0xF4) then
    ({| u_code_point := Z.land b 0x7; u_bytes_needed := 3; u_bytes_seen := 0;
        u_lower := if b =? 0xF0 then 0x90 else 0x80;
        u_upper := if b =? 0xF4 then 0x8F else 0xBF |}, [])
  else (utf8_initial, [0xFFFD]).

(** One byte: a byte outside the expected continuation range ends the
    pending sequence with U+FFFD and is then handled as a lead. *)
Definition utf8_step (st : utf8_state) (b : Z) : utf8_state * list Z :=
  if (u_bytes_needed st =? 0)%nat then utf8_lead b
  else if (b <? u_lower st) || (u_upper st <? b) then
    let '(st', out) := utf8_lead b in (st', 0xFFFD :: out)
  else
    let cp := Z.lor (Z.shiftl (u_code_point st) 6) (Z.land b 0x3F) in
    if (S (u_bytes_seen st) =? u_bytes_needed st)%nat
    then (utf8_initial, [cp])
    else ({| u_code_point := cp; u_bytes_needed := u_bytes_needed st;
             u_bytes_seen := S (u_bytes_seen st);
             u_lower := 0x80; u_upper := 0xBF |}, []).

Fixpoint utf8_run (st : utf8_state) (bs : list Z) : list Z :=
  match bs with
  | [] => if (u_bytes_needed st =? 0)%nat then [] else [0xFFFD]
  | b :: rest =>
      let '(st', out) := utf8_step st b in
      out ++ utf8_run st' rest
  end.

Definition utf8_decode (bs : list Z) : list Z := utf8_run utf8_initial bs.

(** A leading byte order mark is dropped. *)
Definition strip_bom (cs : list Z) : list Z :=
  match cs with
  | c :: rest => if c =? 0xFEFF then rest else cs
  | [] => []
  end.

(** The UTF-16 code units of a scalar value. *)
Definition of_scalar (c : Z) : list Z :=
  if c <? 0x10000 then [c]
  else [0xD800 + Z.shiftr (c - 0x10000) 10; 0xDC00 + Z.land (c - 0x10000) 0x3FF].

Definition of_scalars (cs : list Z) : jsstring := flat_map of_scalar cs.

(** [new TextDecoder().decode(bytes)]. *)
Definition TextDecoder_decode (bs : bytes) : jsstring :=
  of_scalars (strip_bom (utf8_decode (map byte_to_Z bs))).

(** [value.replace(/\u0000/g, '')]: every NUL is removed, wherever it
    is. *)
Definition removeNullCharacters (value : jsstring) : jsstring :=
  filter (fun c => negb (c =? 0)) value.

(** [getUtf8Decoder()]: decodes everything from the offset. *)
Definition getUtf8Decoder : Decoder jsstring :=
  mkDecoder None
    (fun bs offset =>
       let value := TextDecoder_decode (skipn offset bs) in
       Ok (removeNullCharacters value, length bs)).

(** *** Base 58 *)

Definition base58_alphabet : jsstring :=
  js "123456789ABCDEFGHJKLMNPQRSTUVWXYZabcdefghijkmnopqrstuvwxyz".

(** The [while (value > 0n)] loop of [getBaseXFromBigInt]; [fuel] bounds
    the number of iterations. *)
Fixpoint getBaseXFromBigInt_loop (fuel : nat) (value : Z) (alphabet tailChars : jsstring)
  : jsstring :=
  match fuel with
  | O => tailChars
  | S fuel' =>
      if 0 <? value then
        let base := Z.of_nat (length alphabet) in
        getBaseXFromBigInt_loop fuel' (value / base) alphabet
          (nth (Z.to_nat (value mod base)) alphabet 0 :: tailChars)
      else tailChars
  end.

(** A value has at most [log2 value + 1] digits in any base from 2 up. *)
Definition getBaseXFromBigInt (value : Z) (alphabet : jsstring) : jsstring :=
  getBaseXFromBigInt_loop (S (Z.to_nat (Z.log2 value))) value alphabet [].

Fixpoint leading_zeroes (bs : bytes) : nat :=
  match bs with
  | b :: rest => if byte_to_Z b =? 0 then S (leading_zeroes rest) else 0%nat
  | [] => 0%nat
  end.

(** The text [getBaseXDecoder] computes for a byte array that is not
    empty: one first letter of the alphabet per leading zero byte, then
    the digits of the number the other bytes spell in base 256. *)
Definition baseX_text (alphabet : jsstring) (bs : bytes) : jsstring :=
  let trailIndex := leading_zeroes bs in
  let leadingZeroes := repeat (nth 0 alphabet 0) trailIndex in
  if (trailIndex =? length bs)%nat then leadingZeroes
  else
    let base10Number :=
      fold_left (fun sum b => sum * 256 + byte_to_Z b) (skipn trailIndex bs) 0 in
    let tailChars := getBaseXFromBigInt base10Number alphabet in
    leadingZeroes ++ tailChars.

(** [getBaseXDecoder(alphabet)]: bytes to text. *)
Definition getBaseXDecoder (alphabet : jsstring) : Decoder jsstring :=
  mkDecoder None
    (fun rawBytes offset =>
       let bs := skipn offset rawBytes in
       if (length bs =? 0)%nat then Ok ([], 0%nat)
       else Ok (baseX_text alphabet bs, length rawBytes)).

Definition getBase58Decoder : Decoder jsstring := getBaseXDecoder base58_alphabet.

(** [getAddressDecoder()]: 32 bytes shown in base 58. *)
Definition getAddressDecoder : Decoder jsstring :=
  fixDecoderSize getBase58Decoder 32.

(** ** The account decoder ([getCodecs.mts]) *)

Record DataStorageAccount : Type := {
  acc_authority : jsstring;
  acc_label : jsstring;
  acc_lastUpdated : Z;
  acc_canonicalBump : Z;
  acc_isInitialized : bool;
  acc_data : list Z
}.

(** [getStructDecoder] over the six fields, each read at the offset the
    previous one returned. *)
Definition getDataStorageAccountDecoder : Decoder DataStorageAccount :=
  mkDecoder None
    (fun bs offset =>
       '(authority, offset) <- dec_read getAddressDecoder bs offset ;;
       '(label, offset) <- dec_read (fixDecoderSize getUtf8Decoder 30) bs offset ;;
       '(lastUpdated, offset) <- dec_read getI64Decoder bs offset ;;
       '(canonicalBump, offset) <- dec_read getU8Decoder bs offset ;;
       '(isInitialized, offset) <- dec_read getBooleanDecoder bs offset ;;
       '(data, offset) <-
         dec_read (getArrayDecoder getU8Decoder getU16Decoder) bs offset ;;
       Ok ({| acc_authority := authority;
              acc_label := label;
              acc_lastUpdated := lastUpdated;
              acc_canonicalBump := canonicalBump;
              acc_isInitialized := isInitialized;
              acc_data := data |}, offset)).

(** ** Auxiliary definitions for the statements *)

(** The values a [Uint8Array] item can take. *)
Definition is_u8 (v : Z) : bool := (0 <=? v) && (v <=? 255).

(** A byte sequence cut or zero-padded on the right to exactly [n]
    bytes. *)
Definition pad_or_truncate (n : nat) (bs : bytes) : bytes :=
  firstn n (bs ++ repeat x00 n).

Definition label_slot (label : jsstring) : bytes :=
  pad_or_truncate 30 (TextEncoder_encode label).

(** The three size-change cases of an edit. *)
Inductive EditVariant : Type :=
| EqualLength
| Shorter
| Longer.

(** Modelled from the spec: the choice of the edit variant is the
    caller's, who compares the length of the new data with the length of
    the data the account holds ([newLen == oldLen] / [<] / [>]); the
    builders do not read the account. *)
Definition selectEditVariant (oldLen newLen : nat) : EditVariant :=
  if (newLen =? oldLen)%nat then EqualLength
  else if (newLen <? oldLen)%nat then Shorter
  else Longer.

(** What a caller has at hand for an edit, whichever variant applies. *)
Record EditParams : Type := {
  ep_data_storage_pda : Address;
  ep_data_storage_authority : Address;
  ep_rent_receiver_account : Address;
  ep_funding_account : Address;
  ep_new_data : bytes
}.

(** The builder of each variant, as the builders' names assign them. *)
Definition editInstruction (variant : EditVariant) (p : EditParams)
  : result IInstruction :=
  match variant with
  | EqualLength =>
      getEditDataStorageAccountWithNewDataLenIsEqualToOldDataLenInstruction
        {| ee_data_storage_pda := ep_data_storage_pda p;
           ee_data_storage_authority := ep_data_storage_authority p;
           ee_new_data := ep_new_data p |}
  | Shorter =>
      getEditDataStorageAccountWithNewDataLenLessIsThanOldDataLenInstruction
        {| el_data_storage_pda := ep_data_storage_pda p;
           el_data_storage_authority := ep_data_storage_authority p;
           el_rent_receiver_account := ep_rent_receiver_account p;
           el_new_data := ep_new_data p |}
  | Longer =>
      getEditDataStorageAccountWithNewDataLenIsBiggerThanOldDataLenInstruction
        {| eb_data_storage_pda := ep_data_storage_pda p;
           eb_data_storage_authority := ep_data_storage_authority p;
           eb_funding_account := ep_funding_account p;
           eb_new_data := ep_new_data p |}
  end.

(** The length the two bytes at offsets 72 and 73 declare. *)
Definition declared_length (bs : bytes) : Z := le_unsigned (slice bs 72 74).

(** The account read off a byte sequence, field by field, with [n] data
    bytes. *)
Definition account_view (bs : bytes) (n : nat) : DataStorageAccount :=
  {| acc_authority := baseX_text base58_alphabet (slice bs 0 32);
     acc_label := removeNullCharacters (TextDecoder_decode (slice bs 32 62));
     acc_lastUpdated := le_signed (slice bs 62 70);
     acc_canonicalBump := le_unsigned (slice bs 70 71);
     acc_isInitialized := le_unsigned (slice bs 71 72) =? 1;
     acc_data := map byte_to_Z (slice bs 74 (74 + n)) |}.

(** The failures of a decoder that are about the layout of its input:
    too few bytes for a field, or none at all. *)
Definition is_layout_error {A : Type} (r : result A) : bool :=
  match r with
  | Err InvalidByteLength | Err CannotDecodeEmptyByteArray => true
  | _ => false
  end.

(** A Unicode scalar value: a code point that is not a surrogate. *)
Definition is_scalar_value (c : Z) : bool :=
  (0 <=? c) && (c <=? 0x10FFFF) && negb ((0xD800 <=? c) && (c <=? 0xDFFF)).

(** A string whose code units are 16-bit values and whose surrogates all
    come in pairs, a high one followed by a low one. *)
Fixpoint well_formed_utf16 (s : jsstring) : bool :=
  match s with
  | [] => true
  | c :: rest =>
      if is_high_surrogate c then
        match rest with
        | d :: rest' => is_low_surrogate d && well_formed_utf16 rest'
        | [] => false
        end
      else
        (0 <=? c) && (c <=? 0xFFFF) && negb (is_low_surrogate c)
        && well_formed_utf16 rest
  end.

Definition has_no_null (s : jsstring) : bool :=
  forallb (fun c => negb (c =? 0)) s.

Definition starts_with_bom (s : jsstring) : bool :=
  match s with
  | c :: _ => c =? 0xFEFF
  | [] => false
  end.

(** A label that comes back from the decoder as it is: well-formed text
    without NUL characters and without a leading byte order mark. *)
Definition plain_text (s : jsstring) : bool :=
  well_formed_utf16 s && has_no_null s && negb (starts_with_bom s).

(** Modelled from the spec: the account as the ledger holds it (the
    program that writes it is not part of the client): a 32-byte
    authority, the label, the timestamp of the last edit, the bump, the
    initialisation flag and the data. *)
Record LedgerAccount : Type := {
  la_authority : bytes;
  la_label : jsstring;
  la_lastUpdated : Z;
  la_canonicalBump : byte;
  la_isInitialized : bool;
  la_data : bytes
}.

(** The [n] little-endian bytes of an integer, in two's complement. *)
Fixpoint le_bytes (n : nat) (z : Z) : bytes :=
  match n with
  | O => []
  | S n' => byte_of_Z z :: le_bytes n' (z / 256)
  end.

(** Modelled from the spec: the bytes of an account on the ledger, in
    the order and widths of the layout: authority (32), label in UTF-8
    right-padded to 30 bytes, lastUpdated (8, signed, little-endian),
    canonicalBump (1), isInitialized (1), the length of the data (2,
    unsigned, little-endian), the data. *)
Definition serialize_account (a : LedgerAccount) : bytes :=
  la_authority a
  ++ pad_or_truncate 30 (TextEncoder_encode (la_label a))
  ++ le_bytes 8 (la_lastUpdated a)
  ++ [la_canonicalBump a]
  ++ [if la_isInitialized a then x01 else x00]
  ++ le_bytes 2 (Z.of_nat (length (la_data a)))
  ++ la_data a.

(** The position of a character in an alphabet (its length when it is
    not there). *)
Fixpoint index_of (c : Z) (l : jsstring) : nat :=
  match l with
  | [] => 0%nat
  | x :: rest => if x =? c then 0%nat else S (index_of c rest)
  end.

(** The number a text in base 58 spells. *)
Definition base58_value (text : jsstring) : Z :=
  fold_left (fun acc d => acc * 58 + Z.of_nat (index_of d base58_alphabet)) text 0.

(** The number a byte sequence spells in base 256, most significant byte
    first. *)
Definition be_value (bs : bytes) : Z :=
  fold_left (fun sum b => sum * 256 + byte_to_Z b) bs 0.

(** ** Sample inputs *)

Definition sample_edit (new_data : bytes) : EditParams :=
  {| ep_data_storage_pda := js "pda";
     ep_data_storage_authority := js "authority";
     ep_rent_receiver_account := js "receiver";
     ep_funding_account := js "funder";
     ep_new_data := new_data |}.

Definition long_label : jsstring := js "a label that is longer than thirty bytes".

(** The bytes of an account with authority 01..01, label "hi", no edit
    yet, bump 255, initialised, and nothing after the flag. *)
Definition account_without_length_field : bytes :=
  repeat x01 32 ++ [x68; x69] ++ repeat x00 28 ++ repeat x00 8 ++ [xff] ++ [x01].

(** A 74-byte input that declares two data bytes and has none. *)
Definition account_with_missing_data : bytes :=
  account_without_length_field ++ [x02; x00].

Definition account_with_trailing_bytes : bytes :=
  account_without_length_field ++ [x02; x00] ++ [x0a; x0b] ++ [xee; xee; xee].

(** An account whose label has a NUL character inside. *)
Definition account_with_nul_label : LedgerAccount :=
  {| la_authority := repeat x01 32;
     la_label := [97; 0; 98];
     la_lastUpdated := 0;
     la_canonicalBump := xff;
     la_isInitialized := true;
     la_data := [x07] |}.

(** The account of the end-to-end test, after its creation. *)
Definition test_account : LedgerAccount :=
  {| la_authority := repeat x01 32;
     la_label := js "+PooriaGG + Solana + + + + + )";
     la_lastUpdated := 0;
     la_canonicalBump := xff;
     la_isInitialized := true;
     la_data := map byte_of_Z [12; 12; 56; 42; 12; 99; 88; 77; 56; 75] |}.

(** ** Auxiliary definitions for the further properties *)

(** What the UTF-8 decoder keeps true of its state between two bytes:
    the continuation range lies within 80..BF, and the code point
    collected so far fits the sequence in progress (its length and the
    number of continuation bytes seen), so that the code point a sequence
    ends with is a scalar value of that length. *)
Definition utf8_state_ok (st : utf8_state) : Prop :=
  let cp := u_code_point st in
  0x80 <= u_lower st /\ u_upper st <= 0xBF /\
  match u_bytes_needed st, u_bytes_seen st with
  | 0%nat, _ => True
  | 1%nat, 0%nat => 2 <= cp <= 31
  | 2%nat, 0%nat =>
      0 <= cp <= 15 /\ (cp = 0 -> 0xA0 <= u_lower st)
      /\ (cp = 13 -> u_upper st <= 0x9F)
  | 2%nat, 1%nat => 32 <= cp <= 0x3FF /\ ~ (0x360 <= cp <= 0x37F)
  | 3%nat, 0%nat =>
      0 <= cp <= 4 /\ (cp = 0 -> 0x90 <= u_lower st)
      /\ (cp = 4 -> u_upper st <= 0x8F)
  | 3%nat, 1%nat => 16 <= cp <= 0x10F
  | 3%nat, 2%nat => 0x400 <= cp <= 0x43FF
  | _, _ => False
  end.

(** The bytes of a sequence in progress: the lead byte and the
    continuation bytes seen. *)
Definition utf8_pending (st : utf8_state) : nat :=
  if (u_bytes_needed st =? 0)%nat then 0%nat else S (u_bytes_seen st).

(** Parameters of a Create with a given label and data. *)
Definition sample_create (label : jsstring) (data : bytes) : CreateParams :=
  {| cp_new_data_storage_pda := js "pda";
     cp_data_storage_authority := js "authority";
     cp_funding_account := js "funder";
     cp_label := label;
     cp_data := data |}.


(** Sample labels: a euro sign and an e with acute accent; a euro sign
    and an emoji outside the basic plane (a surrogate pair). *)
Definition euro_e_acute : jsstring := [0x20AC; 0xE9].
Definition euro_smile : jsstring := [0x20AC; 0xD83D; 0xDE00].

(** Two labels of more than 30 bytes that differ after the 30th. *)
Definition long_label_a : jsstring := js "a label that is longer than thirty bytes (a)".
Definition long_label_b : jsstring := js "a label that is longer than thirty bytes (b)".

(** ** Tactics *)

(** Unfolds the codecs of a goal down to the writes of their fields,
    leaving arithmetic and buffers as they are. *)
Ltac codec_cbn :=
  cbn -[Z.add Z.mul Z.of_nat Z.to_nat Z.eqb Z.leb Z.ltb Nat.leb Nat.ltb Nat.add Nat.sub
        fixEncoderSize getUtf8Encoder getU8Encoder getArrayEncoder
        repeat firstn skipn set_bytes TextEncoder_encode byte_of_Z].

(** Arithmetic with division and remainder by constants. *)
Ltac arith := Z.div_mod_to_equations; lia.

(** Settles the comparisons of a goal whose outcome arithmetic decides. *)
Ltac settle_tests :=
  repeat match goal with
    | |- context [?a <=? ?b] =>
        first [ rewrite (proj2 (Z.leb_le a b)) by arith
              | rewrite (proj2 (Z.leb_gt a b)) by arith ]
    | |- context [?a <? ?b] =>
        first [ rewrite (proj2 (Z.ltb_lt a b)) by arith
              | rewrite (proj2 (Z.ltb_ge a b)) by arith ]
    | |- context [?a =? ?b] =>
        first [ rewrite (proj2 (Z.eqb_eq a b)) by arith
              | rewrite (proj2 (Z.eqb_neq a b)) by arith ]
    end;
  cbn [andb orb negb].

(** Case analysis on every comparison of the goal. *)
Ltac split_tests :=
  repeat match goal with
    | |- context [?a <=? ?b] => destruct (Z.leb_spec a b)
    | |- context [?a <? ?b] => destruct (Z.ltb_spec a b)
    | |- context [?a =? ?b] => destruct (Z.eqb_spec a b)
    end;
  cbn [andb orb negb].

(** Projections of decoder states and the list functions around them. *)
Ltac utf8_state_cbn :=
  cbn [fst snd utf8_initial u_code_point u_bytes_needed u_bytes_seen
       u_lower u_upper Nat.eqb forallb app length].


(** * Properties *)

(** ** Bytes and buffers *)

Lemma byte_to_Z_range (b : byte) : 0 <= byte_to_Z b <= 255.
Proof.
  unfold byte_to_Z. pose proof (Byte.to_N_bounded b). lia.
Qed.

Lemma byte_of_to_Z (b : byte) : byte_of_Z (byte_to_Z b) = b.
Proof.
  unfold byte_of_Z. pose proof (byte_to_Z_range b) as H.
  rewrite Z.mod_small by lia. unfold byte_to_Z.
  rewrite N2Z.id, Byte.of_to_N. reflexivity.
Qed.

Lemma map_byte_of_numbers (a : bytes) : map byte_of_Z (numbers_of a) = a.
Proof.
  unfold numbers_of. rewrite map_map.
  erewrite map_ext; [apply map_id | apply byte_of_to_Z].
Qed.

Lemma numbers_of_u8 (a : bytes) : forallb is_u8 (numbers_of a) = true.
Proof.
  apply forallb_forall. intros x Hx. unfold numbers_of in Hx.
  apply in_map_iff in Hx. destruct Hx as [b [<- _]].
  pose proof (byte_to_Z_range b). unfold is_u8. lia.
Qed.

Lemma skipn_repeat {A : Type} (x : A) (m k : nat) :
  skipn m (repeat x k) = repeat x (k - m).
Proof.
  revert k. induction m as [|m IH]; intros [|k]; simpl; auto.
Qed.

Lemma firstn_repeat {A : Type} (x : A) (m k : nat) :
  firstn m (repeat x k) = repeat x (Nat.min m k).
Proof.
  revert k. induction m as [|m IH]; intros [|k]; simpl; auto.
  f_equal. apply IH.
Qed.

(** Writing [src] just after a prefix [pre] of a buffer whose remainder is
    still zero. *)
Lemma set_bytes_fresh (pre src : bytes) (k : nat) :
  (length src <= k)%nat ->
  set_bytes (pre ++ repeat x00 k) src (length pre)
  = Ok (pre ++ src ++ repeat x00 (k - length src)).
Proof.
  intros Hk. unfold set_bytes.
  rewrite length_app, repeat_length.
  destruct (Nat.leb_spec (length pre + length src) (length pre + k)); [|lia].
  f_equal.
  rewrite firstn_app, Nat.sub_diag, firstn_all, firstn_O, app_nil_r.
  f_equal. f_equal.
  rewrite skipn_app, skipn_all2 by lia.
  replace (length pre + length src - length pre)%nat with (length src) by lia.
  rewrite skipn_repeat. reflexivity.
Qed.

Lemma set_bytes_length (buf src out : bytes) (offset : nat) :
  set_bytes buf src offset = Ok out -> length out = length buf.
Proof.
  unfold set_bytes.
  destruct (Nat.leb_spec (offset + length src) (length buf)); [|discriminate].
  intros [= <-].
  rewrite !length_app, length_firstn, length_skipn. lia.
Qed.

(** ** The items of a byte array, written one after the other *)

Lemma write_u8_items_fresh (items : list Z) :
  forall (pre : bytes) (k : nat),
    forallb is_u8 items = true ->
    (length items <= k)%nat ->
    write_each (enc_write getU8Encoder) items (pre ++ repeat x00 k) (length pre)
    = Ok (pre ++ map byte_of_Z items ++ repeat x00 (k - length items),
          (length pre + length items)%nat).
Proof.
  induction items as [|v items IH]; intros pre k Hall Hk; simpl in *.
  - rewrite Nat.sub_0_r, Nat.add_0_r. reflexivity.
  - apply andb_true_iff in Hall. destruct Hall as [Hv Hall].
    unfold is_u8 in Hv. rewrite Hv.
    rewrite set_bytes_fresh by (simpl; lia). simpl.
    specialize (IH (pre ++ [byte_of_Z v]) (k - 1)%nat Hall ltac:(lia)).
    rewrite <- app_assoc in IH. simpl in IH.
    rewrite length_app in IH. simpl in IH.
    rewrite IH. rewrite <- app_assoc. simpl.
    replace (k - 1 - length items)%nat with (k - S (length items))%nat by lia.
    replace (length pre + 1 + length items)%nat
      with (length pre + S (length items))%nat by lia.
    reflexivity.
Qed.

Lemma write_u8_items_bad (items : list Z) :
  forall (buf : bytes) (offset : nat),
    forallb is_u8 items = false ->
    is_ok (write_each (enc_write getU8Encoder) items buf offset) = false.
Proof.
  induction items as [|v items IH]; intros buf offset Hall; simpl in *.
  - discriminate.
  - fold (is_u8 v). destruct (is_u8 v) eqn:Hv; simpl in *; [|reflexivity].
    destruct (set_bytes buf [byte_of_Z v] offset); simpl; [|reflexivity].
    apply IH. exact Hall.
Qed.

(** ** The fixed-size label slot *)


Lemma pad_or_truncate_length (n : nat) (bs : bytes) :
  length (pad_or_truncate n bs) = n.
Proof.
  unfold pad_or_truncate.
  rewrite length_firstn, length_app, repeat_length. lia.
Qed.

Lemma pad_or_truncate_short (n : nat) (bs : bytes) :
  (length bs <= n)%nat ->
  pad_or_truncate n bs = bs ++ repeat x00 (n - length bs).
Proof.
  intros H. unfold pad_or_truncate.
  rewrite firstn_app, firstn_all2 by lia.
  rewrite firstn_repeat. f_equal. f_equal. lia.
Qed.

Lemma pad_or_truncate_long (n : nat) (bs : bytes) :
  (n <= length bs)%nat ->
  pad_or_truncate n bs = firstn n bs.
Proof.
  intros H. unfold pad_or_truncate.
  rewrite firstn_app.
  replace (n - length bs)%nat with 0%nat by lia.
  rewrite firstn_O, app_nil_r. reflexivity.
Qed.

Lemma utf8_encode_total (s : jsstring) :
  encode getUtf8Encoder s = Ok (TextEncoder_encode s).
Proof.
  unfold encode, getEncodedSize, new_Uint8Array. simpl.
  destruct (Z.ltb_spec (Z.of_nat (length (TextEncoder_encode s))) 0); [lia|].
  simpl. rewrite Nat2Z.id.
  pose proof (set_bytes_fresh [] (TextEncoder_encode s)
                (length (TextEncoder_encode s)) (le_n _)) as Hset.
  simpl in Hset. rewrite Hset. simpl.
  rewrite Nat.sub_diag. simpl. rewrite app_nil_r. reflexivity.
Qed.

Lemma fixed_utf8_write_fresh (n : nat) (s : jsstring) (pre : bytes) (k : nat) :
  (n <= k)%nat ->
  enc_write (fixEncoderSize getUtf8Encoder n) s (pre ++ repeat x00 k) (length pre)
  = Ok (pre ++ pad_or_truncate n (TextEncoder_encode s) ++ repeat x00 (k - n),
        (length pre + n)%nat).
Proof.
  intros Hk. cbn [enc_write fixEncoderSize].
  rewrite utf8_encode_total. cbn [bind].
  set (enc := TextEncoder_encode s).
  destruct (Nat.ltb_spec n (length enc)) as [Hlong|Hshort].
  - unfold slice. rewrite Nat.sub_0_r. cbn [skipn].
    rewrite set_bytes_fresh by (rewrite length_firstn; lia).
    cbn [bind]. rewrite length_firstn.
    rewrite pad_or_truncate_long by lia.
    replace (k - Nat.min n (length enc))%nat with (k - n)%nat by lia.
    reflexivity.
  - rewrite set_bytes_fresh by lia. cbn [bind].
    rewrite pad_or_truncate_short by lia.
    rewrite <- (app_assoc enc). rewrite <- repeat_app.
    replace (n - length enc + (k - n))%nat with (k - length enc)%nat by lia.
    reflexivity.
Qed.

(** ** The payload encoders *)

Lemma fixEncoderSize_fixedSize {T : Type} (e : Encoder T) (n : nat) :
  enc_fixedSize (fixEncoderSize e n) = Some (Z.of_nat n).
Proof. reflexivity. Qed.

Lemma u8_write_fresh (v : Z) (pre : bytes) (k : nat) :
  is_u8 v = true ->
  (1 <= k)%nat ->
  enc_write getU8Encoder v (pre ++ repeat x00 k) (length pre)
  = Ok (pre ++ [byte_of_Z v] ++ repeat x00 (k - 1), (length pre + 1)%nat).
Proof.
  intros Hv Hk. cbn [enc_write getU8Encoder].
  unfold is_u8 in Hv. rewrite Hv.
  rewrite set_bytes_fresh by (simpl; lia). reflexivity.
Qed.

Lemma u8_array_write (n : Z) (items : list Z) (buf : bytes) (offset : nat) :
  enc_write (getArrayEncoder getU8Encoder n) items buf offset
  = if n =? Z.of_nat (length items)
    then write_each (enc_write getU8Encoder) items buf offset
    else Err InvalidNumberOfItems.
Proof. reflexivity. Qed.

Lemma u8_array_fixedSize (n : Z) :
  enc_fixedSize (getArrayEncoder getU8Encoder n) = Some n.
Proof.
  cbn [enc_fixedSize getArrayEncoder getU8Encoder].
  unfold computeArrayLikeCodecSize.
  destruct (Z.eqb_spec n 0); subst; f_equal; lia.
Qed.

Lemma create_encoded_size (n : Z) (v : CreateInstructionDataArgs) :
  getEncodedSize v (getCreateDataStorageAccountInstructionDataEncoder n) = 31 + n.
Proof.
  unfold getEncodedSize. codec_cbn.
  rewrite fixEncoderSize_fixedSize, u8_array_fixedSize.
  change (enc_fixedSize getU8Encoder) with (Some 1). cbv iota beta. lia.
Qed.

Lemma create_encode_bad_size (n : Z) (v : CreateInstructionDataArgs) :
  n <> Z.of_nat (length (ca_data v)) ->
  is_ok (encode (getCreateDataStorageAccountInstructionDataEncoder n) v) = false.
Proof.
  intros Hn. unfold encode.
  destruct (new_Uint8Array _) as [buf|]; [|reflexivity]. cbn [bind].
  codec_cbn.
  destruct (enc_write getU8Encoder 0 buf 0) as [[buf1 o1]|]; [|reflexivity]. codec_cbn.
  destruct (enc_write _ (ca_label v) _ _) as [[buf2 o2]|]; [|reflexivity]. codec_cbn.
  rewrite u8_array_write.
  destruct (Z.eqb_spec n (Z.of_nat (length (ca_data v)))); [contradiction|reflexivity].
Qed.

Lemma create_encode_bad_item (n : Z) (v : CreateInstructionDataArgs) :
  forallb is_u8 (ca_data v) = false ->
  is_ok (encode (getCreateDataStorageAccountInstructionDataEncoder n) v) = false.
Proof.
  intros Hn. unfold encode.
  destruct (new_Uint8Array _) as [buf|]; [|reflexivity]. cbn [bind].
  codec_cbn.
  destruct (enc_write getU8Encoder 0 buf 0) as [[buf1 o1]|]; [|reflexivity]. codec_cbn.
  destruct (enc_write _ (ca_label v) _ _) as [[buf2 o2]|]; [|reflexivity]. codec_cbn.
  rewrite u8_array_write.
  destruct (Z.eqb_spec n (Z.of_nat (length (ca_data v)))); [|reflexivity].
  pose proof (write_u8_items_bad (ca_data v) buf2 o2 Hn) as Hbad.
  destruct (write_each _ _ _ _) as [[buf3 o3]|]; [discriminate|reflexivity].
Qed.

Lemma create_encode_ok (n : Z) (v : CreateInstructionDataArgs) :
  n = Z.of_nat (length (ca_data v)) ->
  forallb is_u8 (ca_data v) = true ->
  encode (getCreateDataStorageAccountInstructionDataEncoder n) v
  = Ok (x00 :: label_slot (ca_label v) ++ map byte_of_Z (ca_data v)).
Proof.
  intros Hn Hall. unfold encode. rewrite create_encoded_size.
  unfold new_Uint8Array.
  destruct (Z.ltb_spec (31 + n) 0); [lia|]. cbn [bind].
  replace (Z.to_nat (31 + n)) with (31 + length (ca_data v))%nat by lia.
  codec_cbn.
  pose proof (u8_write_fresh 0 [] (31 + length (ca_data v))
                eq_refl ltac:(lia)) as Hdisc.
  cbn [app length] in Hdisc. rewrite Hdisc. clear Hdisc. codec_cbn.
  change (0 + 1)%nat with 1%nat.
  replace (31 + length (ca_data v) - 1)%nat with (30 + length (ca_data v))%nat by lia.
  pose proof (fixed_utf8_write_fresh 30 (ca_label v) [byte_of_Z 0]
                (30 + length (ca_data v)) ltac:(lia)) as Hlabel.
  cbn [app length] in Hlabel. rewrite Hlabel. clear Hlabel. codec_cbn.
  rewrite u8_array_write, Hn, Z.eqb_refl.
  replace (30 + length (ca_data v) - 30)%nat with (length (ca_data v)) by lia.
  pose proof (write_u8_items_fresh (ca_data v)
                (byte_of_Z 0 :: label_slot (ca_label v))
                (length (ca_data v)) Hall (le_n _)) as Hdata.
  cbn [app length] in Hdata. unfold label_slot in Hdata at 2.
  rewrite pad_or_truncate_length in Hdata.
  unfold label_slot in *.
  change (1 + 30)%nat with 31%nat. rewrite Hdata. cbn [bind].
  rewrite Nat.sub_diag. cbn [repeat]. rewrite app_nil_r. reflexivity.
Qed.

Lemma edit_encoded_size (n : Z) (v : EditInstructionDataArgs) :
  getEncodedSize v (getEditDataStorageAccountInstructionDataEncoder n) = 1 + n.
Proof.
  unfold getEncodedSize. codec_cbn. rewrite u8_array_fixedSize.
  change (enc_fixedSize getU8Encoder) with (Some 1). cbv iota beta. lia.
Qed.

Lemma edit_encode_bad_size (n : Z) (v : EditInstructionDataArgs) :
  n <> Z.of_nat (length (ea_newData v)) ->
  is_ok (encode (getEditDataStorageAccountInstructionDataEncoder n) v) = false.
Proof.
  intros Hn. unfold encode.
  destruct (new_Uint8Array _) as [buf|]; [|reflexivity]. cbn [bind].
  codec_cbn.
  destruct (enc_write getU8Encoder 1 buf 0) as [[buf1 o1]|]; [|reflexivity].
  codec_cbn. rewrite u8_array_write.
  destruct (Z.eqb_spec n (Z.of_nat (length (ea_newData v))));
    [contradiction|reflexivity].
Qed.

Lemma edit_encode_bad_item (n : Z) (v : EditInstructionDataArgs) :
  forallb is_u8 (ea_newData v) = false ->
  is_ok (encode (getEditDataStorageAccountInstructionDataEncoder n) v) = false.
Proof.
  intros Hn. unfold encode.
  destruct (new_Uint8Array _) as [buf|]; [|reflexivity]. cbn [bind].
  codec_cbn.
  destruct (enc_write getU8Encoder 1 buf 0) as [[buf1 o1]|]; [|reflexivity].
  codec_cbn. rewrite u8_array_write.
  destruct (Z.eqb_spec n (Z.of_nat (length (ea_newData v)))); [|reflexivity].
  pose proof (write_u8_items_bad (ea_newData v) buf1 o1 Hn) as Hbad.
  destruct (write_each _ _ _ _) as [[buf3 o3]|]; [discriminate|reflexivity].
Qed.

Lemma edit_encode_ok (n : Z) (v : EditInstructionDataArgs) :
  n = Z.of_nat (length (ea_newData v)) ->
  forallb is_u8 (ea_newData v) = true ->
  encode (getEditDataStorageAccountInstructionDataEncoder n) v
  = Ok (x01 :: map byte_of_Z (ea_newData v)).
Proof.
  intros Hn Hall. unfold encode. rewrite edit_encoded_size.
  unfold new_Uint8Array.
  destruct (Z.ltb_spec (1 + n) 0); [lia|]. cbn [bind].
  replace (Z.to_nat (1 + n)) with (1 + length (ea_newData v))%nat by lia.
  codec_cbn.
  pose proof (u8_write_fresh 1 [] (1 + length (ea_newData v))
                eq_refl ltac:(lia)) as Hdisc.
  cbn [app length] in Hdisc. rewrite Hdisc. clear Hdisc. codec_cbn.
  change (0 + 1)%nat with 1%nat.
  replace (1 + length (ea_newData v) - 1)%nat with (length (ea_newData v)) by lia.
  rewrite u8_array_write, Hn, Z.eqb_refl.
  pose proof (write_u8_items_fresh (ea_newData v) [byte_of_Z 1]
                (length (ea_newData v)) Hall (le_n _)) as Hdata.
  cbn [app length] in Hdata. rewrite Hdata. cbn [bind].
  rewrite Nat.sub_diag. cbn [repeat]. rewrite app_nil_r. reflexivity.
Qed.

Lemma close_encode (v : option CloseInstructionDataArgs) :
  encode getCloseDataStorageAccountInstructionDataEncoder v = Ok [x02].
Proof. reflexivity. Qed.

(** ** Base 58: the digit loop stops by itself *)

(** The loop of [getBaseXFromBigInt] ends because the value reaches zero,
    not because the bound on its iterations is reached: any larger bound
    gives the same digits. *)
Lemma getBaseXFromBigInt_loop_enough (fuel : nat) :
  forall (value : Z) (alphabet tailChars : jsstring) (extra : nat),
    2 <= Z.of_nat (length alphabet) ->
    value < 2 ^ Z.of_nat fuel ->
    getBaseXFromBigInt_loop (fuel + extra) value alphabet tailChars
    = getBaseXFromBigInt_loop fuel value alphabet tailChars.
Proof.
  induction fuel as [|fuel IH]; intros value alphabet tailChars extra Hbase Hvalue.
  - change (2 ^ Z.of_nat 0) with 1 in Hvalue.
    destruct extra as [|extra]; [reflexivity|].
    cbn [Nat.add getBaseXFromBigInt_loop].
    destruct (Z.ltb_spec 0 value); [lia | reflexivity].
  - cbn [Nat.add getBaseXFromBigInt_loop].
    destruct (Z.ltb_spec 0 value) as [Hpos|Hzero]; [|reflexivity].
    apply IH; [exact Hbase|].
    rewrite Nat2Z.inj_succ, Z.pow_succ_r in Hvalue by lia.
    apply Z.div_lt_upper_bound; [lia|].
    assert (0 < 2 ^ Z.of_nat fuel) by (apply Z.pow_pos_nonneg; lia).
    nia.
Qed.

Lemma getBaseXFromBigInt_enough (value : Z) (alphabet : jsstring) (extra : nat) :
  2 <= Z.of_nat (length alphabet) ->
  getBaseXFromBigInt_loop (S (Z.to_nat (Z.log2 value)) + extra) value alphabet []
  = getBaseXFromBigInt value alphabet.
Proof.
  intros Hbase. unfold getBaseXFromBigInt.
  apply getBaseXFromBigInt_loop_enough; [exact Hbase|].
  destruct (Z.le_gt_cases value 0) as [Hle|Hpos].
  - assert (0 < 2 ^ Z.of_nat (S (Z.to_nat (Z.log2 value))))
      by (apply Z.pow_pos_nonneg; lia).
    lia.
  - pose proof (Z.log2_spec value Hpos) as [_ Hup].
    pose proof (Z.log2_nonneg value).
    rewrite Nat2Z.inj_succ, Z2Nat.id by lia. exact Hup.
Qed.

(** ** Base 58: distinct byte sequences have distinct texts *)

Lemma getBaseXFromBigInt_loop_app (fuel : nat) :
  forall (value : Z) (alphabet tailChars : jsstring),
    getBaseXFromBigInt_loop fuel value alphabet tailChars
    = getBaseXFromBigInt_loop fuel value alphabet [] ++ tailChars.
Proof.
  induction fuel as [|fuel IH]; intros value alphabet tailChars;
    [reflexivity|].
  cbn [getBaseXFromBigInt_loop].
  destruct (0 <? value); [|reflexivity].
  rewrite IH. rewrite (IH _ _ [_]). rewrite <- app_assoc. reflexivity.
Qed.

Lemma base58_alphabet_length : length base58_alphabet = 58%nat.
Proof. reflexivity. Qed.

Lemma getBaseXFromBigInt_zero (value : Z) (alphabet : jsstring) :
  value <= 0 -> getBaseXFromBigInt value alphabet = [].
Proof.
  intros H. unfold getBaseXFromBigInt. cbn [getBaseXFromBigInt_loop].
  destruct (Z.ltb_spec 0 value); [lia | reflexivity].
Qed.

(** The equation of the digit loop. *)
Lemma base58_digits_step (value : Z) :
  0 < value ->
  getBaseXFromBigInt value base58_alphabet
  = getBaseXFromBigInt (value / 58) base58_alphabet
    ++ [nth (Z.to_nat (value mod 58)) base58_alphabet 0].
Proof.
  intros Hpos. unfold getBaseXFromBigInt at 1.
  cbn [getBaseXFromBigInt_loop].
  destruct (Z.ltb_spec 0 value); [|lia].
  rewrite base58_alphabet_length. change (Z.of_nat 58) with 58.
  rewrite getBaseXFromBigInt_loop_app. f_equal.
  set (f1 := Z.to_nat (Z.log2 value)).
  set (f2 := S (Z.to_nat (Z.log2 (value / 58)))).
  rewrite <- (getBaseXFromBigInt_loop_enough f1 (value / 58) base58_alphabet [] f2).
  - rewrite Nat.add_comm. unfold f2.
    apply getBaseXFromBigInt_enough. rewrite base58_alphabet_length. lia.
  - rewrite base58_alphabet_length. lia.
  - unfold f1. pose proof (Z.log2_spec value Hpos) as [_ Hup].
    pose proof (Z.log2_nonneg value).
    rewrite Z2Nat.id by lia.
    rewrite Z.pow_succ_r in Hup by lia.
    apply Z.div_lt_upper_bound; lia.
Qed.

Lemma base58_index_of_digit (i : nat) :
  (i < 58)%nat -> index_of (nth i base58_alphabet 0) base58_alphabet = i.
Proof.
  intros H. do 58 (destruct i as [|i]; [reflexivity|]). lia.
Qed.

Lemma base58_value_snoc (text : jsstring) (d : Z) :
  base58_value (text ++ [d])
  = base58_value text * 58 + Z.of_nat (index_of d base58_alphabet).
Proof.
  unfold base58_value. rewrite fold_left_app. reflexivity.
Qed.

(** The digits spell the value they were computed from. *)
Lemma base58_value_digits (value : Z) :
  0 <= value ->
  base58_value (getBaseXFromBigInt value base58_alphabet) = value.
Proof.
  intros Hnn. pattern value. apply Zlt_0_ind; [|exact Hnn].
  intros v IH Hv.
  destruct (Z.eq_dec v 0) as [->|Hne]; [reflexivity|].
  rewrite base58_digits_step by lia.
  rewrite base58_value_snoc.
  rewrite (IH (v / 58)) by arith.
  rewrite base58_index_of_digit by arith.
  arith.
Qed.

(** A positive value has a first digit, and it is not the zero digit. *)
Lemma base58_digits_head (value : Z) :
  0 < value ->
  exists c rest,
    getBaseXFromBigInt value base58_alphabet = c :: rest /\
    c <> nth 0 base58_alphabet 0.
Proof.
  intros Hpos. assert (Hnn : 0 <= value) by lia. revert Hpos.
  pattern value. apply Zlt_0_ind; [|exact Hnn].
  intros v IH Hv Hpos.
  rewrite base58_digits_step by exact Hpos.
  destruct (Z.eq_dec (v / 58) 0) as [Hq|Hq].
  - rewrite Hq, getBaseXFromBigInt_zero by lia.
    eexists. exists []. split; [reflexivity|].
    intros Heq.
    pose proof (base58_index_of_digit (Z.to_nat (v mod 58)) ltac:(arith)) as Hi.
    rewrite Heq in Hi. cbn in Hi. arith.
  - destruct (IH (v / 58) ltac:(arith) ltac:(arith)) as [c [rest [Hd Hc]]].
    rewrite Hd. exists c. eexists. split; [reflexivity | exact Hc].
Qed.

Lemma repeat_app_inj {A : Type} (x : A) (z z' : nat) (t t' : list A) :
  repeat x z ++ t = repeat x z' ++ t' ->
  (forall r, t <> x :: r) ->
  (forall r, t' <> x :: r) ->
  z = z' /\ t = t'.
Proof.
  revert z'. induction z as [|z IH]; intros [|z'] Heq Ht Ht'; cbn in Heq.
  - auto.
  - exfalso. exact (Ht _ Heq).
  - exfalso. symmetry in Heq. exact (Ht' _ Heq).
  - injection Heq as Heq. destruct (IH z' Heq Ht Ht') as [-> ->]. auto.
Qed.

Lemma byte_to_Z_inj (b c : byte) : byte_to_Z b = byte_to_Z c -> b = c.
Proof.
  intros H. rewrite <- (byte_of_to_Z b), <- (byte_of_to_Z c), H. reflexivity.
Qed.

Lemma leading_zeroes_split (bs : bytes) :
  bs = repeat x00 (leading_zeroes bs) ++ skipn (leading_zeroes bs) bs.
Proof.
  induction bs as [|b bs IH]; [reflexivity|].
  cbn [leading_zeroes].
  destruct (Z.eqb_spec (byte_to_Z b) 0) as [Hb|Hb]; [|reflexivity].
  cbn [repeat skipn app]. rewrite <- IH.
  f_equal. apply byte_to_Z_inj. exact Hb.
Qed.

Lemma leading_zeroes_le (bs : bytes) : (leading_zeroes bs <= length bs)%nat.
Proof.
  induction bs as [|b bs IH]; cbn [leading_zeroes length]; [lia|].
  destruct (byte_to_Z b =? 0); lia.
Qed.

Lemma leading_zeroes_head (bs : bytes) (b : byte) (rest : bytes) :
  skipn (leading_zeroes bs) bs = b :: rest -> byte_to_Z b <> 0.
Proof.
  induction bs as [|c bs IH]; [discriminate|].
  cbn [leading_zeroes].
  destruct (Z.eqb_spec (byte_to_Z c) 0) as [Hc|Hc].
  - cbn [skipn]. exact IH.
  - cbn [skipn]. intros [= <- _]. exact Hc.
Qed.

Lemma be_value_acc (bs : bytes) :
  forall acc : Z,
    fold_left (fun sum b => sum * 256 + byte_to_Z b) bs acc
    = acc * 256 ^ Z.of_nat (length bs) + be_value bs.
Proof.
  unfold be_value. induction bs as [|b bs IH]; intros acc.
  - cbn. lia.
  - cbn [fold_left length]. rewrite IH, (IH (0 * 256 + byte_to_Z b)).
    rewrite Nat2Z.inj_succ, Z.pow_succ_r by lia. ring.
Qed.

Lemma be_value_cons (b : byte) (bs : bytes) :
  be_value (b :: bs) = byte_to_Z b * 256 ^ Z.of_nat (length bs) + be_value bs.
Proof.
  unfold be_value at 1. cbn [fold_left]. rewrite be_value_acc. f_equal.
Qed.

Lemma be_value_range (bs : bytes) :
  0 <= be_value bs < 256 ^ Z.of_nat (length bs).
Proof.
  induction bs as [|b bs IH]; [cbn; lia|].
  rewrite be_value_cons. cbn [length].
  rewrite Nat2Z.inj_succ, Z.pow_succ_r by lia.
  pose proof (byte_to_Z_range b). nia.
Qed.

Lemma be_value_inj (bs : bytes) :
  forall bs' : bytes,
    length bs = length bs' -> be_value bs = be_value bs' -> bs = bs'.
Proof.
  induction bs as [|b bs IH]; intros [|b' bs'] Hlen Hval;
    try discriminate; [reflexivity|].
  injection Hlen as Hlen. rewrite !be_value_cons, <- Hlen in Hval.
  pose proof (be_value_range bs) as Hr. pose proof (be_value_range bs') as Hr'.
  rewrite <- Hlen in Hr'.
  assert (Hb : byte_to_Z b = byte_to_Z b') by nia.
  f_equal; [apply byte_to_Z_inj; exact Hb|].
  apply IH; [exact Hlen | nia].
Qed.

(** The text of a byte sequence: its leading zero bytes as zero digits,
    then digits that do not start with the zero digit and spell the
    value of the other bytes. *)
Lemma base58_text_shape (bs : bytes) :
  exists digits,
    baseX_text base58_alphabet bs
    = repeat (nth 0 base58_alphabet 0) (leading_zeroes bs) ++ digits /\
    (forall r, digits <> nth 0 base58_alphabet 0 :: r) /\
    base58_value digits = be_value (skipn (leading_zeroes bs) bs).
Proof.
  unfold baseX_text.
  destruct (Nat.eqb_spec (leading_zeroes bs) (length bs)) as [Hall|Hsome].
  - exists []. rewrite app_nil_r, Hall, skipn_all.
    split; [reflexivity|]. split; [discriminate | reflexivity].
  - fold (be_value (skipn (leading_zeroes bs) bs)).
    pose proof (leading_zeroes_le bs) as Hle.
    destruct (skipn (leading_zeroes bs) bs) as [|b rest] eqn:Hrest.
    { apply (f_equal (@length byte)) in Hrest.
      rewrite length_skipn in Hrest. cbn in Hrest. lia. }
    assert (Hpos : 0 < be_value (b :: rest)).
    { rewrite be_value_cons.
      pose proof (leading_zeroes_head bs b rest Hrest).
      pose proof (byte_to_Z_range b). pose proof (be_value_range rest).
      assert (0 < 256 ^ Z.of_nat (length rest)) by (apply Z.pow_pos_nonneg; lia).
      nia. }
    eexists. split; [reflexivity|]. split.
    + destruct (base58_digits_head _ Hpos) as [c [r' [Hd Hc]]].
      rewrite Hd. intros r [= Heq _]. exact (Hc Heq).
    + apply base58_value_digits. lia.
Qed.

(** Two byte sequences of the same length with the same text in base 58
    are the same: an address names its 32 bytes. *)
Lemma base58_text_injective (bs bs' : bytes) :
  length bs = length bs' ->
  baseX_text base58_alphabet bs = baseX_text base58_alphabet bs' ->
  bs = bs'.
Proof.
  intros Hlen Htext.
  destruct (base58_text_shape bs) as [ds [Hds [Hhead Hval]]].
  destruct (base58_text_shape bs') as [ds' [Hds' [Hhead' Hval']]].
  rewrite Hds, Hds' in Htext.
  destruct (repeat_app_inj _ _ _ _ _ Htext Hhead Hhead') as [Hz Hdigits].
  assert (Hrest : skipn (leading_zeroes bs) bs = skipn (leading_zeroes bs') bs').
  { apply be_value_inj.
    - rewrite !length_skipn. lia.
    - rewrite <- Hval, <- Hval', Hdigits. reflexivity. }
  rewrite (leading_zeroes_split bs), Hrest, Hz.
  symmetry. apply leading_zeroes_split.
Qed.

(** ** Slices *)

Lemma slice_length (bs : bytes) (a n : nat) :
  (a + n <= length bs)%nat -> length (slice bs a (a + n)) = n.
Proof.
  intros H. unfold slice. rewrite length_firstn, length_skipn. lia.
Qed.

Lemma slice_split (bs : bytes) (a m k : nat) :
  slice bs a (a + (m + k)) = slice bs a (a + m) ++ slice bs (a + m) (a + m + k).
Proof.
  unfold slice.
  replace (a + (m + k) - a)%nat with (m + k)%nat by lia.
  replace (a + m - a)%nat with m by lia.
  replace (a + m + k - (a + m))%nat with k by lia.
  rewrite <- (firstn_skipn m (skipn a bs)) at 1.
  rewrite firstn_app, length_firstn, length_skipn.
  destruct (Nat.le_gt_cases m (length bs - a)) as [Hle|Hgt].
  - rewrite Nat.min_l by lia.
    rewrite firstn_all2 by (rewrite length_firstn, length_skipn; lia).
    replace (m + k - m)%nat with k by lia.
    rewrite skipn_skipn. do 3 f_equal. lia.
  - rewrite Nat.min_r by lia.
    rewrite (skipn_all2 (n := m)) by (rewrite length_skipn; lia).
    rewrite (skipn_all2 (n := (a + m)%nat)) by lia.
    rewrite !firstn_nil, !app_nil_r.
    rewrite !firstn_all2 by (rewrite ?length_firstn, length_skipn; lia).
    reflexivity.
Qed.

Lemma slice_whole (bs : bytes) : slice bs 0 (length bs) = bs.
Proof.
  unfold slice. rewrite Nat.sub_0_r. cbn [skipn]. apply firstn_all.
Qed.

(** A slice that lies within a prefix of the sequence is a slice of the
    prefix. *)
Lemma slice_app_l (bs trailing : bytes) (a b : nat) :
  (b <= length bs)%nat -> slice (bs ++ trailing) a b = slice bs a b.
Proof.
  intros H. unfold slice.
  destruct (Nat.le_gt_cases a b) as [Hab|Hab].
  - rewrite skipn_app, firstn_app, length_skipn.
    replace (b - a - (length bs - a))%nat with 0%nat by lia.
    rewrite firstn_O, app_nil_r. reflexivity.
  - replace (b - a)%nat with 0%nat by lia. reflexivity.
Qed.

Lemma slice_firstn (bs : bytes) (a b n : nat) :
  (b <= n)%nat -> slice (firstn n bs) a b = slice bs a b.
Proof.
  intros H.
  destruct (Nat.le_gt_cases n (length bs)) as [Hn|Hn].
  - rewrite <- (firstn_skipn n bs) at 2.
    rewrite slice_app_l by (rewrite length_firstn; lia). reflexivity.
  - rewrite firstn_all2 by lia. reflexivity.
Qed.

(** ** Reading the fields *)

Lemma layout_error_bind {A B : Type} (r : result A) (k : A -> result B) :
  is_layout_error r = true -> is_layout_error (bind r k) = true.
Proof.
  destruct r as [a|e]; [discriminate | intros H; exact H].
Qed.

Lemma layout_error_not_ok {A : Type} (r : result A) :
  is_layout_error r = true -> is_ok r = false.
Proof.
  destruct r as [a|e]; [discriminate | reflexivity].
Qed.

Lemma enough_bytes_ok (n : nat) (bs : bytes) (offset : nat) :
  (offset + n <= length bs)%nat ->
  assertByteArrayHasEnoughBytesForCodec n bs offset = Ok tt.
Proof.
  intros H. unfold assertByteArrayHasEnoughBytesForCodec.
  destruct (Z.ltb_spec (Z.of_nat (length bs) - Z.of_nat offset) (Z.of_nat n));
    [lia | reflexivity].
Qed.

Lemma enough_bytes_err (n : nat) (bs : bytes) (offset : nat) :
  (length bs < offset + n)%nat ->
  assertByteArrayHasEnoughBytesForCodec n bs offset = Err InvalidByteLength.
Proof.
  intros H. unfold assertByteArrayHasEnoughBytesForCodec.
  destruct (Z.ltb_spec (Z.of_nat (length bs) - Z.of_nat offset) (Z.of_nat n));
    [reflexivity | lia].
Qed.

Lemma number_read_ok (size : nat) (get : bytes -> Z) (bs : bytes) (offset : nat) :
  (0 < size)%nat ->
  (offset + size <= length bs)%nat ->
  dec_read (numberDecoder size get) bs offset
  = Ok (get (slice bs offset (offset + size)), (offset + size)%nat).
Proof.
  intros Hsize H. cbn [dec_read numberDecoder].
  unfold assertByteArrayIsNotEmptyForCodec.
  destruct (Z.leb_spec (Z.of_nat (length bs) - Z.of_nat offset) 0); [lia|].
  cbn [bind]. rewrite enough_bytes_ok by exact H. reflexivity.
Qed.

Lemma number_read_err (size : nat) (get : bytes -> Z) (bs : bytes) (offset : nat) :
  (length bs < offset + size)%nat ->
  is_layout_error (dec_read (numberDecoder size get) bs offset) = true.
Proof.
  intros H. cbn [dec_read numberDecoder].
  unfold assertByteArrayIsNotEmptyForCodec.
  destruct (Z.leb_spec (Z.of_nat (length bs) - Z.of_nat offset) 0);
    [reflexivity|].
  cbn [bind]. rewrite enough_bytes_err by exact H. reflexivity.
Qed.

(** With enough bytes, the nested decoder of [fixDecoderSize] is run on
    the slice of [fixedBytes] bytes at the offset. *)
Lemma fix_read_ok {T : Type} (d : Decoder T) (n : nat) (bs : bytes) (offset : nat) :
  dec_fixedSize d = None ->
  (offset + n <= length bs)%nat ->
  dec_read (fixDecoderSize d n) bs offset
  = ('(value, _) <- dec_read d (slice bs offset (offset + n)) 0%nat ;;
     Ok (value, (offset + n)%nat)).
Proof.
  intros Hvar H. cbn [dec_read fixDecoderSize].
  rewrite enough_bytes_ok by exact H. cbn [bind]. rewrite Hvar.
  destruct ((0 <? offset)%nat || (n <? length bs)%nat) eqn:Hcond;
    [reflexivity|].
  apply orb_false_iff in Hcond. destruct Hcond as [H0 Hn].
  apply Nat.ltb_ge in H0, Hn.
  assert (offset = 0%nat) by lia. subst offset.
  assert (n = length bs) by lia. subst n.
  cbn [Nat.add]. rewrite slice_whole. reflexivity.
Qed.

Lemma fix_read_err {T : Type} (d : Decoder T) (n : nat) (bs : bytes) (offset : nat) :
  (length bs < offset + n)%nat ->
  dec_read (fixDecoderSize d n) bs offset = Err InvalidByteLength.
Proof.
  intros H. cbn [dec_read fixDecoderSize].
  rewrite enough_bytes_err by exact H. reflexivity.
Qed.

Lemma le_unsigned_single (bs : bytes) :
  length bs = 1%nat -> [le_unsigned bs] = map byte_to_Z bs.
Proof.
  destruct bs as [|b [|c bs]]; try discriminate.
  intros _. cbn [le_unsigned map]. f_equal. lia.
Qed.

Lemma read_u8_items_ok (n : nat) (bs : bytes) :
  forall offset : nat,
    (offset + n <= length bs)%nat ->
    read_items getU8Decoder n bs offset
    = Ok (map byte_to_Z (slice bs offset (offset + n)), (offset + n)%nat).
Proof.
  induction n as [|n IH]; intros offset H.
  - cbn [read_items]. unfold slice.
    replace (offset + 0 - offset)%nat with 0%nat by lia.
    rewrite Nat.add_0_r. reflexivity.
  - cbn [read_items]. unfold getU8Decoder at 1.
    rewrite number_read_ok by lia. cbn [bind].
    rewrite IH by lia. cbn [bind].
    replace (S n) with (1 + n)%nat by lia.
    rewrite slice_split, map_app.
    rewrite <- (le_unsigned_single (slice bs offset (offset + 1)))
      by (apply slice_length; lia).
    replace (offset + 1 + n)%nat with (offset + (1 + n))%nat by lia.
    reflexivity.
Qed.

Lemma read_u8_items_err (n : nat) (bs : bytes) :
  forall offset : nat,
    (offset <= length bs)%nat ->
    (length bs < offset + n)%nat ->
    is_layout_error (read_items getU8Decoder n bs offset) = true.
Proof.
  induction n as [|n IH]; intros offset Hoff H.
  - lia.
  - cbn [read_items].
    destruct (Nat.le_gt_cases (length bs) offset) as [Hend|Hmore].
    + apply layout_error_bind. apply number_read_err. lia.
    + unfold getU8Decoder at 1. rewrite number_read_ok by lia. cbn [bind].
      apply layout_error_bind. apply IH; lia.
Qed.

(** ** The account decoder, field by field *)

Lemma le_unsigned_nonneg (bs : bytes) : 0 <= le_unsigned bs.
Proof.
  induction bs as [|b bs IH]; cbn [le_unsigned]; [lia|].
  pose proof (byte_to_Z_range b). lia.
Qed.

Lemma base58_read (bs : bytes) :
  (0 < length bs)%nat ->
  dec_read getBase58Decoder bs 0 = Ok (baseX_text base58_alphabet bs, length bs).
Proof.
  intros H. cbn [dec_read getBase58Decoder getBaseXDecoder skipn].
  destruct (Nat.eqb_spec (length bs) 0); [lia | reflexivity].
Qed.

(** The five fixed fields take the first 72 bytes. *)
Lemma account_read_fixed_fields (bs : bytes) :
  (72 <= length bs)%nat ->
  dec_read getDataStorageAccountDecoder bs 0
  = ('(data, offset) <-
       dec_read (getArrayDecoder getU8Decoder getU16Decoder) bs 72 ;;
     Ok ({| acc_authority := acc_authority (account_view bs 0);
            acc_label := acc_label (account_view bs 0);
            acc_lastUpdated := acc_lastUpdated (account_view bs 0);
            acc_canonicalBump := acc_canonicalBump (account_view bs 0);
            acc_isInitialized := acc_isInitialized (account_view bs 0);
            acc_data := data |}, offset)).
Proof.
  intros H. cbn [dec_read getDataStorageAccountDecoder].
  unfold getAddressDecoder. rewrite fix_read_ok by (reflexivity || lia).
  rewrite base58_read by (rewrite slice_length; lia). cbn [bind].
  rewrite fix_read_ok by (reflexivity || lia).
  cbn [dec_read getUtf8Decoder bind skipn].
  unfold getI64Decoder. rewrite number_read_ok by lia. cbn [bind].
  unfold getU8Decoder at 1. rewrite number_read_ok by lia. cbn [bind].
  unfold getBooleanDecoder. cbn [dec_read transformDecoder].
  unfold getU8Decoder at 1. rewrite number_read_ok by lia. cbn [bind].
  reflexivity.
Qed.

Lemma account_read_short (bs : bytes) :
  (length bs < 72)%nat ->
  is_layout_error (decode getDataStorageAccountDecoder bs) = true.
Proof.
  intros H. unfold decode. cbn [dec_read getDataStorageAccountDecoder].
  destruct (Nat.le_gt_cases 32 (length bs)) as [H32|H32].
  2:{ unfold getAddressDecoder. rewrite fix_read_err by lia. reflexivity. }
  unfold getAddressDecoder. rewrite fix_read_ok by (reflexivity || lia).
  rewrite base58_read by (rewrite slice_length; lia). cbn [bind].
  destruct (Nat.le_gt_cases 62 (length bs)) as [H62|H62].
  2:{ rewrite fix_read_err by lia. reflexivity. }
  rewrite fix_read_ok by (reflexivity || lia).
  cbn [dec_read getUtf8Decoder bind skipn].
  destruct (Nat.le_gt_cases 70 (length bs)) as [H70|H70].
  2:{ do 2 apply layout_error_bind. apply number_read_err. lia. }
  unfold getI64Decoder. rewrite number_read_ok by lia. cbn [bind].
  destruct (Nat.le_gt_cases 71 (length bs)) as [H71|H71].
  2:{ do 2 apply layout_error_bind. apply number_read_err. lia. }
  unfold getU8Decoder at 1. rewrite number_read_ok by lia. cbn [bind].
  unfold getBooleanDecoder. cbn [dec_read transformDecoder].
  do 3 apply layout_error_bind. apply number_read_err. lia.
Qed.

(** The data field, read at offset 72. *)
Lemma data_read_none (bs : bytes) :
  length bs = 72%nat ->
  dec_read (getArrayDecoder getU8Decoder getU16Decoder) bs 72 = Ok ([], 72%nat).
Proof.
  intros H. cbn [dec_read getArrayDecoder].
  rewrite length_skipn, H. reflexivity.
Qed.

Lemma data_read_half_prefix (bs : bytes) :
  length bs = 73%nat ->
  is_layout_error (dec_read (getArrayDecoder getU8Decoder getU16Decoder) bs 72) = true.
Proof.
  intros H. cbn [dec_read getArrayDecoder].
  rewrite length_skipn, H. cbn [Nat.sub Nat.eqb].
  apply layout_error_bind. apply number_read_err. lia.
Qed.

Lemma data_read_prefixed (bs : bytes) :
  (74 <= length bs)%nat ->
  dec_read (getArrayDecoder getU8Decoder getU16Decoder) bs 72
  = read_items getU8Decoder (Z.to_nat (declared_length bs)) bs 74.
Proof.
  intros H. cbn [dec_read getArrayDecoder].
  rewrite length_skipn.
  destruct (Nat.eqb_spec (length bs - 72) 0); [lia|].
  unfold getU16Decoder. rewrite number_read_ok by lia. reflexivity.
Qed.

(** *** The four cases of the account decoder *)

Lemma account_decode_no_prefix (bs : bytes) :
  length bs = 72%nat ->
  decode getDataStorageAccountDecoder bs = Ok (account_view bs 0).
Proof.
  intros H. unfold decode.
  rewrite account_read_fixed_fields by lia.
  rewrite data_read_none by exact H. cbn [bind].
  unfold account_view, slice. cbn [acc_authority acc_label acc_lastUpdated
    acc_canonicalBump acc_isInitialized acc_data].
  reflexivity.
Qed.

Lemma account_decode_half_prefix (bs : bytes) :
  length bs = 73%nat ->
  is_layout_error (decode getDataStorageAccountDecoder bs) = true.
Proof.
  intros H. unfold decode.
  rewrite account_read_fixed_fields by lia.
  do 2 apply layout_error_bind. apply data_read_half_prefix. exact H.
Qed.

Lemma account_decode_enough (bs : bytes) :
  (74 <= length bs)%nat ->
  74 + declared_length bs <= Z.of_nat (length bs) ->
  decode getDataStorageAccountDecoder bs
  = Ok (account_view bs (Z.to_nat (declared_length bs))).
Proof.
  intros H Hdl. unfold decode.
  rewrite account_read_fixed_fields by lia.
  rewrite data_read_prefixed by exact H.
  rewrite read_u8_items_ok by lia. cbn [bind].
  reflexivity.
Qed.

Lemma account_decode_missing_data (bs : bytes) :
  (74 <= length bs)%nat ->
  Z.of_nat (length bs) < 74 + declared_length bs ->
  is_layout_error (decode getDataStorageAccountDecoder bs) = true.
Proof.
  intros H Hdl. unfold decode.
  rewrite account_read_fixed_fields by lia.
  rewrite data_read_prefixed by exact H.
  do 2 apply layout_error_bind. apply read_u8_items_err; lia.
Qed.

(** ** UTF-8: decoding what was encoded *)

Lemma lor_high_low (a b k : Z) :
  0 <= k -> 0 <= b < 2 ^ k -> Z.lor (a * 2 ^ k) b = a * 2 ^ k + b.
Proof.
  intros Hk Hb. rewrite <- Z.add_lor_land.
  assert (Hland : Z.land (a * 2 ^ k) b = 0).
  { apply Z.bits_inj'. intros n Hn.
    rewrite Z.land_spec, Z.bits_0.
    destruct (Z.lt_ge_cases n k) as [Hlt|Hge].
    - rewrite Z.mul_pow2_bits_low by lia. reflexivity.
    - destruct (Z.eq_dec b 0) as [->|Hb0].
      + rewrite Z.bits_0, andb_false_r. reflexivity.
      + assert (Z.log2 b < k) by (apply Z.log2_lt_pow2; lia).
        rewrite (Z.bits_above_log2 b n), andb_false_r by lia. reflexivity. }
  rewrite Hland. lia.
Qed.

Lemma land_low_bits (x k : Z) :
  0 <= k -> Z.land x (2 ^ k - 1) = x mod 2 ^ k.
Proof.
  intros Hk. rewrite <- Z.land_ones by exact Hk.
  f_equal. rewrite Z.ones_equiv. lia.
Qed.

(** The bit operations of the two codecs, as arithmetic. *)
Lemma lor_80 (x : Z) : 0 <= x < 64 -> Z.lor 0x80 x = 128 + x.
Proof. intros H. apply (lor_high_low 2 x 6); lia. Qed.

Lemma lor_C0 (x : Z) : 0 <= x < 32 -> Z.lor 0xC0 x = 192 + x.
Proof. intros H. apply (lor_high_low 6 x 5); lia. Qed.

Lemma lor_E0 (x : Z) : 0 <= x < 16 -> Z.lor 0xE0 x = 224 + x.
Proof. intros H. apply (lor_high_low 14 x 4); lia. Qed.

Lemma lor_F0 (x : Z) : 0 <= x < 8 -> Z.lor 0xF0 x = 240 + x.
Proof. intros H. apply (lor_high_low 30 x 3); lia. Qed.

Lemma land_3F (x : Z) : Z.land x 0x3F = x mod 64.
Proof. apply (land_low_bits x 6). lia. Qed.

Lemma land_1F (x : Z) : Z.land x 0x1F = x mod 32.
Proof. apply (land_low_bits x 5). lia. Qed.

Lemma land_0F (x : Z) : Z.land x 0xF = x mod 16.
Proof. apply (land_low_bits x 4). lia. Qed.

Lemma land_07 (x : Z) : Z.land x 0x7 = x mod 8.
Proof. apply (land_low_bits x 3). lia. Qed.

Lemma land_3FF (x : Z) : Z.land x 0x3FF = x mod 1024.
Proof. apply (land_low_bits x 10). lia. Qed.

Lemma shiftl_6_lor (x y : Z) :
  0 <= y < 64 -> Z.lor (Z.shiftl x 6) y = x * 64 + y.
Proof.
  intros H. rewrite Z.shiftl_mul_pow2 by lia. apply (lor_high_low x y 6); lia.
Qed.

Lemma is_scalar_value_spec (c : Z) :
  is_scalar_value c = true <->
  0 <= c <= 0x10FFFF /\ ~ (0xD800 <= c <= 0xDFFF).
Proof.
  unfold is_scalar_value. rewrite !andb_true_iff, negb_true_iff, andb_false_iff.
  rewrite !Z.leb_le, !Z.leb_gt. lia.
Qed.

Lemma utf8_run_ascii (c : Z) (rest : list Z) :
  0 <= c <= 0x7F ->
  utf8_run utf8_initial (c :: rest) = c :: utf8_run utf8_initial rest.
Proof.
  intros H. cbn [utf8_run]. unfold utf8_step, utf8_lead.
  cbn [u_bytes_needed utf8_initial Nat.eqb]. settle_tests. reflexivity.
Qed.

Lemma utf8_run_encoded (c : Z) (rest : list Z) :
  is_scalar_value c = true ->
  utf8_run utf8_initial (utf8_encode_scalar c ++ rest)
  = c :: utf8_run utf8_initial rest.
Proof.
  intros Hc. apply is_scalar_value_spec in Hc. destruct Hc as [Hrange Hsur].
  unfold utf8_encode_scalar.
  destruct (Z.leb_spec c 0x7F) as [H1|H1].
  { apply utf8_run_ascii. lia. }
  destruct (Z.leb_spec c 0x7FF) as [H2|H2].
  { rewrite Z.shiftr_div_pow2, land_3F by lia. change (2 ^ 6) with 64.
    rewrite lor_C0, lor_80 by arith.
    cbn [app utf8_run]. unfold utf8_step at 1.
    cbn [u_bytes_needed utf8_initial Nat.eqb]. unfold utf8_lead. settle_tests.
    unfold utf8_step. cbn [u_bytes_needed u_bytes_seen u_lower u_upper
      u_code_point Nat.eqb]. settle_tests.
    rewrite land_1F, land_3F, shiftl_6_lor by arith.
    cbn [app]. f_equal. arith. }
  destruct (Z.leb_spec c 0xFFFF) as [H3|H3].
  { rewrite !Z.shiftr_div_pow2, !land_3F by lia.
    change (2 ^ 12) with 4096. change (2 ^ 6) with 64.
    rewrite lor_E0, !lor_80 by arith.
    assert (Hlead : c / 4096 = 0 \/ c / 4096 = 13 \/
                    (c / 4096 <> 0 /\ c / 4096 <> 13)) by lia.
    cbn [app utf8_run]. unfold utf8_step at 1.
    cbn [u_bytes_needed utf8_initial Nat.eqb]. unfold utf8_lead.
    destruct Hlead as [Hlead|[Hlead|Hlead]]; settle_tests;
      unfold utf8_step at 1;
      cbn [u_bytes_needed u_bytes_seen u_lower u_upper u_code_point Nat.eqb];
      settle_tests;
      unfold utf8_step;
      cbn [u_bytes_needed u_bytes_seen u_lower u_upper u_code_point Nat.eqb];
      settle_tests;
      rewrite land_0F, !land_3F, !shiftl_6_lor by arith;
      cbn [app]; f_equal; arith. }
  rewrite !Z.shiftr_div_pow2, !land_3F by lia.
  change (2 ^ 18) with 262144. change (2 ^ 12) with 4096. change (2 ^ 6) with 64.
  rewrite lor_F0, !lor_80 by arith.
  assert (Hlead : c / 262144 = 0 \/ c / 262144 = 4 \/
                  (c / 262144 <> 0 /\ c / 262144 <> 4)) by lia.
  cbn [app utf8_run]. unfold utf8_step at 1.
  cbn [u_bytes_needed utf8_initial Nat.eqb]. unfold utf8_lead.
  destruct Hlead as [Hlead|[Hlead|Hlead]]; settle_tests;
    unfold utf8_step at 1;
    cbn [u_bytes_needed u_bytes_seen u_lower u_upper u_code_point Nat.eqb];
    settle_tests;
    unfold utf8_step at 1;
    cbn [u_bytes_needed u_bytes_seen u_lower u_upper u_code_point Nat.eqb];
    settle_tests;
    unfold utf8_step;
    cbn [u_bytes_needed u_bytes_seen u_lower u_upper u_code_point Nat.eqb];
    settle_tests;
    rewrite land_07, !land_3F, !shiftl_6_lor by arith;
    cbn [app]; f_equal; arith.
Qed.

Lemma utf8_encode_scalar_bytes (c : Z) :
  is_scalar_value c = true ->
  Forall (fun b => 0 <= b <= 255) (utf8_encode_scalar c).
Proof.
  intros Hc. apply is_scalar_value_spec in Hc. destruct Hc as [Hrange Hsur].
  unfold utf8_encode_scalar.
  destruct (Z.leb_spec c 0x7F) as [H1|H1].
  { repeat constructor; lia. }
  destruct (Z.leb_spec c 0x7FF) as [H2|H2].
  { rewrite Z.shiftr_div_pow2, land_3F by lia. change (2 ^ 6) with 64.
    rewrite lor_C0, lor_80 by arith. repeat constructor; arith. }
  destruct (Z.leb_spec c 0xFFFF) as [H3|H3].
  { rewrite !Z.shiftr_div_pow2, !land_3F by lia.
    change (2 ^ 12) with 4096. change (2 ^ 6) with 64.
    rewrite lor_E0, !lor_80 by arith. repeat constructor; arith. }
  rewrite !Z.shiftr_div_pow2, !land_3F by lia.
  change (2 ^ 18) with 262144. change (2 ^ 12) with 4096. change (2 ^ 6) with 64.
  rewrite lor_F0, !lor_80 by arith. repeat constructor; arith.
Qed.

Lemma utf8_decode_encoded (cs rest : list Z) :
  forallb is_scalar_value cs = true ->
  utf8_run utf8_initial (utf8_encode_scalars cs ++ rest)
  = cs ++ utf8_run utf8_initial rest.
Proof.
  induction cs as [|c cs IH]; intros Hcs; [reflexivity|].
  cbn [forallb] in Hcs. apply andb_true_iff in Hcs. destruct Hcs as [Hc Hcs].
  unfold utf8_encode_scalars in *. cbn [flat_map].
  rewrite <- app_assoc, utf8_run_encoded by exact Hc.
  rewrite IH by exact Hcs. reflexivity.
Qed.

Lemma utf8_encode_scalars_bytes (cs : list Z) :
  forallb is_scalar_value cs = true ->
  Forall (fun b => 0 <= b <= 255) (utf8_encode_scalars cs).
Proof.
  induction cs as [|c cs IH]; intros Hcs; [constructor|].
  cbn [forallb] in Hcs. apply andb_true_iff in Hcs. destruct Hcs as [Hc Hcs].
  unfold utf8_encode_scalars in *. cbn [flat_map].
  apply Forall_app. split; [apply utf8_encode_scalar_bytes; exact Hc | auto].
Qed.

Lemma utf8_run_zeros (k : nat) :
  utf8_run utf8_initial (repeat 0 k) = repeat 0 k.
Proof.
  induction k as [|k IH]; [reflexivity|].
  cbn [repeat]. rewrite utf8_run_ascii by lia. rewrite IH. reflexivity.
Qed.

Lemma byte_to_of_Z (z : Z) : 0 <= z <= 255 -> byte_to_Z (byte_of_Z z) = z.
Proof.
  intros H. unfold byte_of_Z, byte_to_Z. rewrite Z.mod_small by lia.
  destruct (Byte.of_N (Z.to_N z)) as [b|] eqn:Hb.
  - apply Byte.to_of_N in Hb. rewrite Hb. lia.
  - apply Byte.of_N_None_iff in Hb. lia.
Qed.

Lemma map_byte_to_of_Z (l : list Z) :
  Forall (fun b => 0 <= b <= 255) l -> map byte_to_Z (map byte_of_Z l) = l.
Proof.
  induction 1 as [|z l Hz Hl IH]; [reflexivity|].
  cbn [map]. rewrite byte_to_of_Z by exact Hz. rewrite IH. reflexivity.
Qed.

(** ** UTF-16: scalar values and code units *)

Lemma surrogate_pair_units (c d : Z) :
  is_high_surrogate c = true -> is_low_surrogate d = true ->
  let v := 0x10000 + Z.shiftl (c - 0xD800) 10 + (d - 0xDC00) in
  is_scalar_value v = true /\ of_scalar v = [c; d].
Proof.
  intros Hc Hd v. subst v. unfold is_high_surrogate, is_low_surrogate in *.
  apply andb_true_iff in Hc, Hd. rewrite !Z.leb_le in Hc, Hd.
  rewrite Z.shiftl_mul_pow2 by lia. change (2 ^ 10) with 1024.
  split.
  - apply is_scalar_value_spec. lia.
  - unfold of_scalar. settle_tests.
    rewrite Z.shiftr_div_pow2, land_3FF by lia. change (2 ^ 10) with 1024.
    f_equal; [arith | f_equal; arith].
Qed.

Lemma well_formed_utf16_scalars (n : nat) :
  forall s : jsstring,
    (length s <= n)%nat ->
    well_formed_utf16 s = true ->
    forallb is_scalar_value (to_scalars s) = true /\
    of_scalars (to_scalars s) = s.
Proof.
  induction n as [|n IH]; intros s Hlen Hwf.
  - destruct s; [split; reflexivity | cbn [length] in Hlen; lia].
  - destruct s as [|c rest]; [split; reflexivity|].
    cbn [length] in Hlen. cbn [well_formed_utf16 to_scalars] in *.
    destruct (is_high_surrogate c) eqn:Hhigh.
    + destruct rest as [|d rest']; [discriminate|].
      apply andb_true_iff in Hwf. destruct Hwf as [Hlow Hwf].
      rewrite Hlow. cbn [length] in Hlen.
      destruct (IH rest' ltac:(lia) Hwf) as [Hsc Hback].
      destruct (surrogate_pair_units c d Hhigh Hlow) as [Hv Hunits].
      unfold of_scalars in *. cbn [forallb flat_map].
      rewrite Hv, Hsc, Hunits, Hback. split; reflexivity.
    + rewrite !andb_true_iff in Hwf. destruct Hwf as [[[Hc0 Hc1] Hnl] Hwf].
      apply negb_true_iff in Hnl. rewrite Hnl.
      destruct (IH rest ltac:(lia) Hwf) as [Hsc Hback].
      unfold of_scalars in *. cbn [forallb flat_map].
      rewrite Hsc, Hback.
      unfold is_high_surrogate, is_low_surrogate in *.
      apply andb_false_iff in Hhigh, Hnl.
      rewrite Z.leb_le in Hc0, Hc1. rewrite !Z.leb_gt in Hhigh, Hnl.
      split.
      * rewrite andb_true_r. apply is_scalar_value_spec. lia.
      * unfold of_scalar. settle_tests. reflexivity.
Qed.

(** ** The label, encoded and decoded *)

Lemma of_scalars_zeros (k : nat) : of_scalars (repeat 0 k) = repeat 0 k.
Proof.
  induction k as [|k IH]; [reflexivity|].
  unfold of_scalars in *. cbn [repeat flat_map]. rewrite IH. reflexivity.
Qed.

Lemma remove_null_zeros (k : nat) : removeNullCharacters (repeat 0 k) = [].
Proof.
  induction k as [|k IH]; [reflexivity|]. exact IH.
Qed.

Lemma remove_null_none (s : jsstring) :
  has_no_null s = true -> removeNullCharacters s = s.
Proof.
  induction s as [|c s IH]; [reflexivity|].
  cbn [has_no_null forallb removeNullCharacters filter].
  intros H. apply andb_true_iff in H. destruct H as [Hc Hs].
  rewrite Hc. f_equal. apply IH. exact Hs.
Qed.

(** The scalar values of well-formed text that does not start with a byte
    order mark do not start with one either, whatever zeros follow. *)
Lemma strip_bom_scalars (s : jsstring) (k : nat) :
  well_formed_utf16 s = true ->
  starts_with_bom s = false ->
  strip_bom (to_scalars s ++ repeat 0 k) = to_scalars s ++ repeat 0 k.
Proof.
  intros Hwf Hbom. destruct s as [|c rest].
  - destruct k; reflexivity.
  - cbn [well_formed_utf16 to_scalars starts_with_bom] in *.
    apply Z.eqb_neq in Hbom.
    destruct (is_high_surrogate c) eqn:Hhigh.
    + destruct rest as [|d rest']; [discriminate|].
      apply andb_true_iff in Hwf. destruct Hwf as [Hlow _]. rewrite Hlow.
      destruct (surrogate_pair_units c d Hhigh Hlow) as [Hv _].
      apply is_scalar_value_spec in Hv.
      unfold is_high_surrogate, is_low_surrogate in *.
      apply andb_true_iff in Hhigh, Hlow. rewrite !Z.leb_le in Hhigh, Hlow.
      rewrite Z.shiftl_mul_pow2 in * by lia. change (2 ^ 10) with 1024 in *.
      cbn [app strip_bom]. settle_tests. reflexivity.
    + rewrite !andb_true_iff in Hwf. destruct Hwf as [[[_ _] Hnl] _].
      apply negb_true_iff in Hnl. rewrite Hnl.
      cbn [app strip_bom]. settle_tests. reflexivity.
Qed.

Lemma map_byte_to_Z_zeros (k : nat) : map byte_to_Z (repeat x00 k) = repeat 0 k.
Proof.
  induction k as [|k IH]; [reflexivity|]. cbn [repeat map]. rewrite IH. reflexivity.
Qed.

Lemma decode_padded_text (s : jsstring) (k : nat) :
  well_formed_utf16 s = true ->
  starts_with_bom s = false ->
  removeNullCharacters
    (TextDecoder_decode (TextEncoder_encode s ++ repeat x00 k))
  = removeNullCharacters s.
Proof.
  intros Hwf Hbom.
  destruct (well_formed_utf16_scalars (length s) s (le_n _) Hwf) as [Hsc Hback].
  unfold TextDecoder_decode, TextEncoder_encode, utf8_decode.
  rewrite map_app, map_byte_to_Z_zeros.
  rewrite map_byte_to_of_Z by (apply utf8_encode_scalars_bytes; exact Hsc).
  rewrite utf8_decode_encoded by exact Hsc.
  rewrite utf8_run_zeros, strip_bom_scalars by assumption.
  unfold of_scalars in *. rewrite flat_map_app. fold (of_scalars (repeat 0 k)).
  rewrite Hback, of_scalars_zeros.
  unfold removeNullCharacters. rewrite filter_app.
  fold (removeNullCharacters (repeat 0 k)).
  rewrite remove_null_zeros. apply app_nil_r.
Qed.

Lemma decode_padded_label (s : jsstring) (k : nat) :
  plain_text s = true ->
  removeNullCharacters
    (TextDecoder_decode (TextEncoder_encode s ++ repeat x00 k)) = s.
Proof.
  unfold plain_text. rewrite !andb_true_iff, negb_true_iff.
  intros [[Hwf Hnull] Hbom].
  rewrite decode_padded_text by assumption.
  apply remove_null_none. exact Hnull.
Qed.

(** ** Little-endian integers *)

Lemma le_bytes_length (n : nat) (z : Z) : length (le_bytes n z) = n.
Proof.
  revert z. induction n as [|n IH]; intros z; [reflexivity|].
  cbn [le_bytes length]. rewrite IH. reflexivity.
Qed.

Lemma byte_to_of_Z_mod (z : Z) : byte_to_Z (byte_of_Z z) = z mod 256.
Proof.
  pose proof (Z.mod_pos_bound z 256 ltac:(lia)) as H.
  rewrite <- (byte_to_of_Z (z mod 256)) by lia.
  unfold byte_of_Z. rewrite Z.mod_mod by lia. reflexivity.
Qed.

Lemma le_unsigned_le_bytes (n : nat) (z : Z) :
  le_unsigned (le_bytes n z) = z mod 256 ^ Z.of_nat n.
Proof.
  revert z. induction n as [|n IH]; intros z.
  - cbn [le_bytes le_unsigned]. rewrite Z.mod_1_r. reflexivity.
  - cbn [le_bytes le_unsigned]. rewrite IH, byte_to_of_Z_mod.
    rewrite Nat2Z.inj_succ, Z.pow_succ_r by lia.
    rewrite Z.rem_mul_r by lia. reflexivity.
Qed.

Lemma le_signed_le_bytes_8 (z : Z) :
  - 2 ^ 63 <= z < 2 ^ 63 -> le_signed (le_bytes 8 z) = z.
Proof.
  intros H. unfold le_signed. rewrite le_unsigned_le_bytes, le_bytes_length.
  change (256 ^ Z.of_nat 8) with (2 ^ 64).
  change (8 * Z.of_nat 8 - 1) with 63. change (8 * Z.of_nat 8) with 64.
  destruct (Z.ltb_spec (z mod 2 ^ 64) (2 ^ 63)); arith.
Qed.

Lemma le_unsigned_le_bytes_2 (z : Z) :
  0 <= z <= 65535 -> le_unsigned (le_bytes 2 z) = z.
Proof.
  intros H. rewrite le_unsigned_le_bytes.
  change (256 ^ Z.of_nat 2) with 65536. apply Z.mod_small. lia.
Qed.

(** ** The fields of a serialized account *)

Lemma slice_mid (pre x post : bytes) (a n : nat) :
  length pre = a -> length x = n ->
  slice (pre ++ x ++ post) a (a + n) = x.
Proof.
  intros Ha Hn. unfold slice.
  replace (a + n - a)%nat with n by lia.
  rewrite skipn_app, skipn_all2 by lia.
  replace (a - length pre)%nat with 0%nat by lia. cbn [app skipn].
  rewrite firstn_app, firstn_all2 by lia.
  replace (n - length x)%nat with 0%nat by lia.
  rewrite firstn_O, app_nil_r. reflexivity.
Qed.

Lemma slice_tail (pre x : bytes) (a : nat) :
  length pre = a -> slice (pre ++ x) a (a + length x) = x.
Proof.
  intros Ha. rewrite <- (app_nil_r x) at 1.
  apply slice_mid; [exact Ha | reflexivity].
Qed.

Section SerializedAccount.

Variable a : LedgerAccount.
Hypothesis authority_32 : length (la_authority a) = 32%nat.

Lemma serialized_length :
  length (serialize_account a) = (74 + length (la_data a))%nat.
Proof.
  unfold serialize_account. rewrite !length_app, authority_32.
  rewrite pad_or_truncate_length, !le_bytes_length. cbn [length]. lia.
Qed.

Lemma serialized_authority :
  slice (serialize_account a) 0 32 = la_authority a.
Proof.
  apply (slice_mid [] (la_authority a) _ 0 32); [reflexivity | exact authority_32].
Qed.

Lemma serialized_label :
  slice (serialize_account a) 32 62
  = pad_or_truncate 30 (TextEncoder_encode (la_label a)).
Proof.
  apply (slice_mid (la_authority a) _ _ 32 30);
    [exact authority_32 | apply pad_or_truncate_length].
Qed.

Lemma serialized_lastUpdated :
  slice (serialize_account a) 62 70 = le_bytes 8 (la_lastUpdated a).
Proof.
  unfold serialize_account. rewrite (app_assoc (la_authority a)).
  apply (slice_mid _ (le_bytes 8 (la_lastUpdated a)) _ 62 8).
  - rewrite length_app, authority_32, pad_or_truncate_length. reflexivity.
  - apply le_bytes_length.
Qed.

Lemma serialized_canonicalBump :
  slice (serialize_account a) 70 71 = [la_canonicalBump a].
Proof.
  unfold serialize_account.
  rewrite (app_assoc (pad_or_truncate _ _)), (app_assoc (la_authority a)).
  apply (slice_mid _ [la_canonicalBump a] _ 70 1).
  - rewrite !length_app, authority_32, pad_or_truncate_length, le_bytes_length.
    reflexivity.
  - reflexivity.
Qed.

Lemma serialized_isInitialized :
  slice (serialize_account a) 71 72
  = [if la_isInitialized a then x01 else x00].
Proof.
  unfold serialize_account.
  rewrite (app_assoc (le_bytes 8 _)), (app_assoc (pad_or_truncate _ _)),
    (app_assoc (la_authority a)).
  apply (slice_mid _ [if la_isInitialized a then x01 else x00] _ 71 1).
  - rewrite !length_app, authority_32, pad_or_truncate_length, le_bytes_length.
    reflexivity.
  - reflexivity.
Qed.

Lemma serialized_prefix :
  slice (serialize_account a) 72 74
  = le_bytes 2 (Z.of_nat (length (la_data a))).
Proof.
  unfold serialize_account.
  rewrite (app_assoc [la_canonicalBump a]), (app_assoc (le_bytes 8 _)),
    (app_assoc (pad_or_truncate _ _)), (app_assoc (la_authority a)).
  apply (slice_mid _ (le_bytes 2 (Z.of_nat (length (la_data a)))) _ 72 2).
  - rewrite !length_app, authority_32, pad_or_truncate_length, le_bytes_length.
    reflexivity.
  - apply le_bytes_length.
Qed.

Lemma serialized_data :
  slice (serialize_account a) 74 (74 + length (la_data a)) = la_data a.
Proof.
  unfold serialize_account.
  rewrite (app_assoc [if la_isInitialized a then x01 else x00]),
    (app_assoc [la_canonicalBump a]), (app_assoc (le_bytes 8 _)),
    (app_assoc (pad_or_truncate _ _)), (app_assoc (la_authority a)).
  apply slice_tail.
  rewrite !length_app, authority_32, pad_or_truncate_length, !le_bytes_length.
  reflexivity.
Qed.

End SerializedAccount.

(** ** The payloads the builders produce *)

Lemma create_payload_of_bytes (d : option Z) (label : jsstring) (data : bytes) :
  encode (getCreateDataStorageAccountInstructionDataEncoder (Z.of_nat (length data)))
    {| ca_discriminator := d; ca_label := label; ca_data := numbers_of data |}
  = Ok (x00 :: label_slot label ++ data).
Proof.
  rewrite create_encode_ok; cbn [ca_data ca_label].
  - rewrite map_byte_of_numbers. reflexivity.
  - unfold numbers_of. rewrite length_map. reflexivity.
  - apply numbers_of_u8.
Qed.

Lemma edit_payload_of_bytes (d : option Z) (new_data : bytes) :
  encode (getEditDataStorageAccountInstructionDataEncoder (Z.of_nat (length new_data)))
    {| ea_discriminator := d; ea_newData := numbers_of new_data |}
  = Ok (x01 :: new_data).
Proof.
  rewrite edit_encode_ok; cbn [ea_newData].
  - rewrite map_byte_of_numbers. reflexivity.
  - unfold numbers_of. rewrite length_map. reflexivity.
  - apply numbers_of_u8.
Qed.

(** Every payload the Create encoder returns has the shape of the
    successful case: a failed size or item check returns none. *)
Lemma create_encode_inv (n : Z) (v : CreateInstructionDataArgs) (out : bytes) :
  encode (getCreateDataStorageAccountInstructionDataEncoder n) v = Ok out ->
  n = Z.of_nat (length (ca_data v)) /\
  forallb is_u8 (ca_data v) = true /\
  out = x00 :: label_slot (ca_label v) ++ map byte_of_Z (ca_data v).
Proof.
  intros Hout.
  destruct (Z.eq_dec n (Z.of_nat (length (ca_data v)))) as [Hn|Hn].
  - destruct (forallb is_u8 (ca_data v)) eqn:Hall.
    + rewrite (create_encode_ok n v Hn Hall) in Hout.
      injection Hout as <-. auto.
    + pose proof (create_encode_bad_item n v Hall) as Hbad.
      rewrite Hout in Hbad. discriminate.
  - pose proof (create_encode_bad_size n v Hn) as Hbad.
    rewrite Hout in Hbad. discriminate.
Qed.

Lemma edit_encode_inv (n : Z) (v : EditInstructionDataArgs) (out : bytes) :
  encode (getEditDataStorageAccountInstructionDataEncoder n) v = Ok out ->
  n = Z.of_nat (length (ea_newData v)) /\
  forallb is_u8 (ea_newData v) = true /\
  out = x01 :: map byte_of_Z (ea_newData v).
Proof.
  intros Hout.
  destruct (Z.eq_dec n (Z.of_nat (length (ea_newData v)))) as [Hn|Hn].
  - destruct (forallb is_u8 (ea_newData v)) eqn:Hall.
    + rewrite (edit_encode_ok n v Hn Hall) in Hout.
      injection Hout as <-. auto.
    + pose proof (edit_encode_bad_item n v Hall) as Hbad.
      rewrite Hout in Hbad. discriminate.
  - pose proof (edit_encode_bad_size n v Hn) as Hbad.
    rewrite Hout in Hbad. discriminate.
Qed.

(** ** The instructions *)

Lemma create_instruction (params : CreateParams) :
  getCreateDataStorageAccountInstruction params
  = Ok {| programAddress := DATA_STORAGE_PROGRAM_ID;
          accounts :=
            [ {| address := cp_new_data_storage_pda params; role := WRITABLE |};
              {| address := cp_data_storage_authority params; role := READONLY_SIGNER |};
              {| address := cp_funding_account params; role := WRITABLE_SIGNER |};
              {| address := SYSTEM_PROGRAM_ID; role := READONLY |} ];
          data := x00 :: label_slot (cp_label params) ++ cp_data params |}.
Proof.
  unfold getCreateDataStorageAccountInstruction.
  rewrite create_payload_of_bytes. reflexivity.
Qed.

Lemma edit_equal_instruction (params : EditEqualParams) :
  getEditDataStorageAccountWithNewDataLenIsEqualToOldDataLenInstruction params
  = Ok {| programAddress := DATA_STORAGE_PROGRAM_ID;
          accounts :=
            [ {| address := ee_data_storage_pda params; role := WRITABLE |};
              {| address := ee_data_storage_authority params; role := READONLY_SIGNER |} ];
          data := x01 :: ee_new_data params |}.
Proof.
  unfold getEditDataStorageAccountWithNewDataLenIsEqualToOldDataLenInstruction.
  rewrite edit_payload_of_bytes. reflexivity.
Qed.

Lemma edit_less_instruction (params : EditLessParams) :
  getEditDataStorageAccountWithNewDataLenLessIsThanOldDataLenInstruction params
  = Ok {| programAddress := DATA_STORAGE_PROGRAM_ID;
          accounts :=
            [ {| address := el_data_storage_pda params; role := WRITABLE |};
              {| address := el_data_storage_authority params; role := READONLY_SIGNER |};
              {| address := el_rent_receiver_account params; role := WRITABLE |} ];
          data := x01 :: el_new_data params |}.
Proof.
  unfold getEditDataStorageAccountWithNewDataLenLessIsThanOldDataLenInstruction.
  rewrite edit_payload_of_bytes. reflexivity.
Qed.

Lemma edit_bigger_instruction (params : EditBiggerParams) :
  getEditDataStorageAccountWithNewDataLenIsBiggerThanOldDataLenInstruction params
  = Ok {| programAddress := DATA_STORAGE_PROGRAM_ID;
          accounts :=
            [ {| address := eb_data_storage_pda params; role := WRITABLE |};
              {| address := eb_data_storage_authority params; role := READONLY_SIGNER |};
              {| address := eb_funding_account params; role := WRITABLE_SIGNER |};
              {| address := SYSTEM_PROGRAM_ID; role := READONLY |} ];
          data := x01 :: eb_new_data params |}.
Proof.
  unfold getEditDataStorageAccountWithNewDataLenIsBiggerThanOldDataLenInstruction.
  rewrite edit_payload_of_bytes. reflexivity.
Qed.

Lemma close_instruction (params : CloseParams) :
  getCloseDataStorageAccountInstruction params
  = Ok {| programAddress := DATA_STORAGE_PROGRAM_ID;
          accounts :=
            [ {| address := cl_data_storage_pda params; role := WRITABLE |};
              {| address := cl_data_storage_authority params; role := READONLY_SIGNER |};
              {| address := cl_rent_exempt_receiver_account params; role := WRITABLE |} ];
          data := [x02] |}.
Proof. reflexivity. Qed.

(** * The claims *)

(** ** Instruction assembly *)

(** C1: Edit variant and account list.  For every old length and every
    new data, the builder of the variant selected by comparing the new
    length with the old one returns an instruction whose payload is the
    Edit payload (discriminator 1, then the new data) and whose account
    list is exactly: for equal lengths the account (writable) and the
    authority (read-only signer); for a shorter new data those two and
    the rent receiver (writable); for a longer new data the account, the
    authority, the funding account (writable signer) and the system
    program (read-only). *)
Theorem edit_variant_accounts (oldLen : nat) (p : EditParams) :
  let newLen := length (ep_new_data p) in
  let pda := {| address := ep_data_storage_pda p; role := WRITABLE |} in
  let authority :=
    {| address := ep_data_storage_authority p; role := READONLY_SIGNER |} in
  exists ix,
    editInstruction (selectEditVariant oldLen newLen) p = Ok ix /\
    data ix = x01 :: ep_new_data p /\
    (newLen = oldLen -> accounts ix = [pda; authority]) /\
    ((newLen < oldLen)%nat ->
     accounts ix =
       [pda; authority;
        {| address := ep_rent_receiver_account p; role := WRITABLE |}]) /\
    ((newLen > oldLen)%nat ->
     accounts ix =
       [pda; authority;
        {| address := ep_funding_account p; role := WRITABLE_SIGNER |};
        {| address := js "11111111111111111111111111111111"; role := READONLY |}]).
Proof.
  intros newLen pda authority. unfold selectEditVariant.
  destruct (Nat.eqb_spec newLen oldLen) as [Heq|Hne].
  - cbn [editInstruction]. rewrite edit_equal_instruction.
    eexists. split; [reflexivity|]. cbn [data accounts ee_new_data
      ee_data_storage_pda ee_data_storage_authority].
    repeat split; intros; solve [reflexivity | lia].
  - destruct (Nat.ltb_spec newLen oldLen) as [Hlt|Hge].
    + cbn [editInstruction]. rewrite edit_less_instruction.
      eexists. split; [reflexivity|]. cbn [data accounts el_new_data
        el_data_storage_pda el_data_storage_authority el_rent_receiver_account].
      repeat split; intros; solve [reflexivity | lia].
    + cbn [editInstruction]. rewrite edit_bigger_instruction.
      eexists. split; [reflexivity|]. cbn [data accounts eb_new_data
        eb_data_storage_pda eb_data_storage_authority eb_funding_account].
      repeat split; intros; solve [reflexivity | lia].
Qed.

Lemma edit_variant_accounts_witness :
  (length (repeat x07 5) < 10)%nat /\
  exists ix,
    editInstruction (selectEditVariant 10 5) (sample_edit (repeat x07 5)) = Ok ix /\
    accounts ix =
      [ {| address := js "pda"; role := WRITABLE |};
        {| address := js "authority"; role := READONLY_SIGNER |};
        {| address := js "receiver"; role := WRITABLE |} ].
Proof.
  split; [simpl; lia|].
  destruct (edit_variant_accounts 10 (sample_edit (repeat x07 5)))
    as [ix [Hix [_ [_ [Hshorter _]]]]].
  exists ix. split; [exact Hix|].
  apply Hshorter. simpl. lia.
Defined.

(** C5: Create instruction.  For every set of parameters the Create
    builder returns an instruction with the four accounts new account
    (writable), authority (read-only signer), funding account (writable
    signer), system program (read-only), in that order; its payload is
    what the Create encoder gives for the label and the data, namely the
    discriminator, the 30-byte label slot and then the data bytes as they
    are, with no length in front of them. *)
Theorem create_instruction_shape (params : CreateParams) :
  exists ix,
    getCreateDataStorageAccountInstruction params = Ok ix /\
    accounts ix =
      [ {| address := cp_new_data_storage_pda params; role := WRITABLE |};
        {| address := cp_data_storage_authority params; role := READONLY_SIGNER |};
        {| address := cp_funding_account params; role := WRITABLE_SIGNER |};
        {| address := js "11111111111111111111111111111111"; role := READONLY |} ] /\
    encode
      (getCreateDataStorageAccountInstructionDataEncoder
         (Z.of_nat (length (cp_data params))))
      {| ca_discriminator := None;
         ca_label := cp_label params;
         ca_data := numbers_of (cp_data params) |} = Ok (data ix) /\
    data ix =
      x00 :: pad_or_truncate 30 (TextEncoder_encode (cp_label params))
          ++ cp_data params /\
    skipn 31 (data ix) = cp_data params.
Proof.
  rewrite create_instruction. eexists. split; [reflexivity|].
  cbn [accounts data]. split; [reflexivity|].
  split; [apply create_payload_of_bytes|].
  split; [reflexivity|].
  rewrite skipn_cons, skipn_app.
  unfold label_slot. rewrite pad_or_truncate_length, Nat.sub_diag.
  rewrite skipn_all2 by (rewrite pad_or_truncate_length; lia).
  reflexivity.
Qed.

(** C6: Close instruction.  For every set of parameters the Close
    builder returns an instruction with the three accounts account
    (writable), authority (read-only signer), receiver of the rent-exempt
    balance (writable), in that order, and a payload that is the single
    byte 2. *)
Theorem close_instruction_shape (params : CloseParams) :
  exists ix,
    getCloseDataStorageAccountInstruction params = Ok ix /\
    accounts ix =
      [ {| address := cl_data_storage_pda params; role := WRITABLE |};
        {| address := cl_data_storage_authority params; role := READONLY_SIGNER |};
        {| address := cl_rent_exempt_receiver_account params; role := WRITABLE |} ] /\
    data ix = [x02].
Proof.
  rewrite close_instruction. eexists. repeat split.
Qed.

(** C8: Program address and leading accounts.  Each of the five
    builders returns an instruction addressed to the program
    DSAgnFyNE53P9m5vz9ALojPQwbtaPjwzPa61ZN1oe7mG whose account list
    begins with the data-storage account given, writable, and then the
    authority given, as a read-only signer. *)
Theorem builders_program_and_leading_accounts :
  let program := js "DSAgnFyNE53P9m5vz9ALojPQwbtaPjwzPa61ZN1oe7mG" in
  let leading (pda authority : Address) :=
    [ {| address := pda; role := WRITABLE |};
      {| address := authority; role := READONLY_SIGNER |} ] in
  (forall p, exists ix,
      getCreateDataStorageAccountInstruction p = Ok ix /\
      programAddress ix = program /\
      firstn 2 (accounts ix)
      = leading (cp_new_data_storage_pda p) (cp_data_storage_authority p)) /\
  (forall p, exists ix,
      getEditDataStorageAccountWithNewDataLenIsEqualToOldDataLenInstruction p = Ok ix /\
      programAddress ix = program /\
      firstn 2 (accounts ix)
      = leading (ee_data_storage_pda p) (ee_data_storage_authority p)) /\
  (forall p, exists ix,
      getEditDataStorageAccountWithNewDataLenLessIsThanOldDataLenInstruction p = Ok ix /\
      programAddress ix = program /\
      firstn 2 (accounts ix)
      = leading (el_data_storage_pda p) (el_data_storage_authority p)) /\
  (forall p, exists ix,
      getEditDataStorageAccountWithNewDataLenIsBiggerThanOldDataLenInstruction p = Ok ix /\
      programAddress ix = program /\
      firstn 2 (accounts ix)
      = leading (eb_data_storage_pda p) (eb_data_storage_authority p)) /\
  (forall p, exists ix,
      getCloseDataStorageAccountInstruction p = Ok ix /\
      programAddress ix = program /\
      firstn 2 (accounts ix)
      = leading (cl_data_storage_pda p) (cl_data_storage_authority p)).
Proof.
  intros program leading. repeat split; intros p.
  - rewrite create_instruction. eexists. repeat split.
  - rewrite edit_equal_instruction. eexists. repeat split.
  - rewrite edit_less_instruction. eexists. repeat split.
  - rewrite edit_bigger_instruction. eexists. repeat split.
  - rewrite close_instruction. eexists. repeat split.
Qed.

(** ** Instruction payloads *)

(** C4: Discriminators.  Whatever value is handed to a payload encoder,
    with or without a discriminator of its own, a payload it returns
    starts with byte 0 for Create, byte 1 for Edit and byte 2 for Close;
    and a payload is returned for every label and every byte array whose
    length the encoder was sized with, and for every argument of the
    Close encoder. *)
Theorem payload_discriminators :
  (forall (n : Z) (v : CreateInstructionDataArgs) (out : bytes),
      encode (getCreateDataStorageAccountInstructionDataEncoder n) v = Ok out ->
      hd_error out = Some x00) /\
  (forall (n : Z) (v : EditInstructionDataArgs) (out : bytes),
      encode (getEditDataStorageAccountInstructionDataEncoder n) v = Ok out ->
      hd_error out = Some x01) /\
  (forall (v : option CloseInstructionDataArgs), exists out,
      encode getCloseDataStorageAccountInstructionDataEncoder v = Ok out /\
      hd_error out = Some x02) /\
  (forall (d : option Z) (label : jsstring) (data : bytes), exists out,
      encode
        (getCreateDataStorageAccountInstructionDataEncoder (Z.of_nat (length data)))
        {| ca_discriminator := d; ca_label := label; ca_data := numbers_of data |}
      = Ok out /\
      hd_error out = Some x00) /\
  (forall (d : option Z) (new_data : bytes), exists out,
      encode
        (getEditDataStorageAccountInstructionDataEncoder (Z.of_nat (length new_data)))
        {| ea_discriminator := d; ea_newData := numbers_of new_data |}
      = Ok out /\
      hd_error out = Some x01).
Proof.
  repeat split.
  - intros n v out Hout.
    apply create_encode_inv in Hout. destruct Hout as [_ [_ ->]]. reflexivity.
  - intros n v out Hout.
    apply edit_encode_inv in Hout. destruct Hout as [_ [_ ->]]. reflexivity.
  - intros v. exists [x02]. split; [apply close_encode | reflexivity].
  - intros d label data. eexists.
    split; [apply create_payload_of_bytes | reflexivity].
  - intros d new_data. eexists.
    split; [apply edit_payload_of_bytes | reflexivity].
Qed.

Lemma payload_discriminators_witness :
  encode (getCreateDataStorageAccountInstructionDataEncoder 3)
    {| ca_discriminator := Some 7; ca_label := js "hello"; ca_data := [1; 2; 3] |}
  = Ok ([x00; x68; x65; x6c; x6c; x6f] ++ repeat x00 25 ++ [x01; x02; x03]) /\
  hd_error ([x00; x68; x65; x6c; x6c; x6f] ++ repeat x00 25 ++ [x01; x02; x03])
  = Some x00.
Proof.
  split; [reflexivity|].
  apply (proj1 payload_discriminators 3
           {| ca_discriminator := Some 7; ca_label := js "hello";
              ca_data := [1; 2; 3] |}).
  reflexivity.
Defined.

(** C7: The label slot.  In a Create payload the label occupies 30
    bytes after the discriminator: its UTF-8 bytes followed by zero bytes
    when it has at most 30 of them, and its first 30 UTF-8 bytes, with no
    error, when it has more; the data follows.  For the label "hello" and
    the data 1, 2, 3 the payload is 00, then 68 65 6C 6C 6F, then 25 zero
    bytes, then 01 02 03. *)
Theorem create_label_slot :
  (forall (d : option Z) (label : jsstring) (data : bytes),
      (length (TextEncoder_encode label) <= 30)%nat ->
      encode
        (getCreateDataStorageAccountInstructionDataEncoder (Z.of_nat (length data)))
        {| ca_discriminator := d; ca_label := label; ca_data := numbers_of data |}
      = Ok (x00 :: TextEncoder_encode label
                ++ repeat x00 (30 - length (TextEncoder_encode label))
                ++ data)) /\
  (forall (d : option Z) (label : jsstring) (data : bytes),
      (30 < length (TextEncoder_encode label))%nat ->
      encode
        (getCreateDataStorageAccountInstructionDataEncoder (Z.of_nat (length data)))
        {| ca_discriminator := d; ca_label := label; ca_data := numbers_of data |}
      = Ok (x00 :: firstn 30 (TextEncoder_encode label) ++ data)) /\
  encode (getCreateDataStorageAccountInstructionDataEncoder 3)
    {| ca_discriminator := None; ca_label := js "hello";
       ca_data := numbers_of [x01; x02; x03] |}
  = Ok ([x00] ++ [x68; x65; x6c; x6c; x6f] ++ repeat x00 25 ++ [x01; x02; x03]).
Proof.
  repeat split.
  - intros d label data Hshort. rewrite create_payload_of_bytes.
    unfold label_slot. rewrite pad_or_truncate_short by exact Hshort.
    rewrite <- app_assoc. reflexivity.
  - intros d label data Hlong. rewrite create_payload_of_bytes.
    unfold label_slot. rewrite pad_or_truncate_long by lia. reflexivity.
Qed.

Lemma create_label_slot_witness :
  ((length (TextEncoder_encode (js "hi")) <= 30)%nat /\
   encode (getCreateDataStorageAccountInstructionDataEncoder 1)
     {| ca_discriminator := None; ca_label := js "hi"; ca_data := numbers_of [xff] |}
   = Ok ([x00; x68; x69] ++ repeat x00 28 ++ [xff])) /\
  ((30 < length (TextEncoder_encode long_label))%nat /\
   encode (getCreateDataStorageAccountInstructionDataEncoder 1)
     {| ca_discriminator := None; ca_label := long_label; ca_data := numbers_of [xff] |}
   = Ok (x00 :: firstn 30 (TextEncoder_encode long_label) ++ [xff])).
Proof.
  split; split.
  - simpl. lia.
  - apply (proj1 create_label_slot None (js "hi") [xff]). simpl. lia.
  - simpl. lia.
  - apply (proj1 (proj2 create_label_slot) None long_label [xff]). simpl. lia.
Defined.

(** C9: Payload lengths.  Through the builders the payload encoders
    never fail, for any label and any byte array, and the payload has
    [31 + data.length] bytes for Create, [1 + new_data.length] bytes for
    each Edit variant and one byte for Close. *)
Theorem builders_payload_length :
  (forall p, exists ix,
      getCreateDataStorageAccountInstruction p = Ok ix /\
      length (data ix) = (31 + length (cp_data p))%nat) /\
  (forall p, exists ix,
      getEditDataStorageAccountWithNewDataLenIsEqualToOldDataLenInstruction p = Ok ix /\
      length (data ix) = (1 + length (ee_new_data p))%nat) /\
  (forall p, exists ix,
      getEditDataStorageAccountWithNewDataLenLessIsThanOldDataLenInstruction p = Ok ix /\
      length (data ix) = (1 + length (el_new_data p))%nat) /\
  (forall p, exists ix,
      getEditDataStorageAccountWithNewDataLenIsBiggerThanOldDataLenInstruction p = Ok ix /\
      length (data ix) = (1 + length (eb_new_data p))%nat) /\
  (forall p, exists ix,
      getCloseDataStorageAccountInstruction p = Ok ix /\
      length (data ix) = 1%nat).
Proof.
  repeat split; intros p.
  - rewrite create_instruction. eexists. split; [reflexivity|].
    cbn [data length]. rewrite length_app. unfold label_slot.
    rewrite pad_or_truncate_length. lia.
  - rewrite edit_equal_instruction. eexists. split; reflexivity.
  - rewrite edit_less_instruction. eexists. split; reflexivity.
  - rewrite edit_bigger_instruction. eexists. split; reflexivity.
  - rewrite close_instruction. eexists. split; reflexivity.
Qed.

(** ** Account decoding *)

Lemma declared_length_nonneg (bs : bytes) : 0 <= declared_length bs.
Proof. apply le_unsigned_nonneg. Qed.

Lemma decode_72_bytes_counterexample :
  (length account_without_length_field < 74)%nat /\
  decode getDataStorageAccountDecoder account_without_length_field
  = Ok {| acc_authority := js "4vJ9JU1bJJE96FWSJKvHsmmFADCg4gpZQff4P3bkLKi";
          acc_label := js "hi";
          acc_lastUpdated := 0;
          acc_canonicalBump := 255;
          acc_isInitialized := true;
          acc_data := [] |}.
Proof.
  split; [simpl; lia | vm_compute; reflexivity].
Qed.

(** C2 (amended): Failure of account decoding.  Decoding fails, with a
    layout error, exactly when the input has fewer than 72 bytes, or has
    73 bytes, or has at least 74 bytes and declares in its two-byte
    length field more data bytes than follow the 74-byte prefix; an input
    of exactly 72 bytes, which stops before the length field, decodes to
    an account with no data.  In particular a 74-byte input whose length
    field is 2 fails. *)
Theorem account_decode_failure (bs : bytes) :
  (is_ok (decode getDataStorageAccountDecoder bs) = false <->
   (length bs < 72)%nat \/
   length bs = 73%nat \/
   ((74 <= length bs)%nat /\ Z.of_nat (length bs) - 74 < declared_length bs)) /\
  (is_ok (decode getDataStorageAccountDecoder bs) = false ->
   is_layout_error (decode getDataStorageAccountDecoder bs) = true) /\
  (length bs = 72%nat ->
   exists account,
     decode getDataStorageAccountDecoder bs = Ok account /\ acc_data account = []) /\
  (length bs = 74%nat -> declared_length bs = 2 ->
   is_layout_error (decode getDataStorageAccountDecoder bs) = true).
Proof.
  assert (Hcases :
    (length bs < 72)%nat \/ length bs = 72%nat \/ length bs = 73%nat \/
    ((74 <= length bs)%nat /\ Z.of_nat (length bs) - 74 < declared_length bs) \/
    ((74 <= length bs)%nat /\ 74 + declared_length bs <= Z.of_nat (length bs)))
    by lia.
  repeat split.
  - intros Hfail.
    destruct Hcases as [H|[H|[H|[H|[H Hdl]]]]]; auto.
    + rewrite account_decode_no_prefix in Hfail by exact H. discriminate.
    + rewrite account_decode_enough in Hfail by assumption. discriminate.
  - intros [H|[H|[H Hdl]]]; apply layout_error_not_ok.
    + apply account_read_short; exact H.
    + apply account_decode_half_prefix; exact H.
    + apply account_decode_missing_data; [exact H | lia].
  - intros Hfail.
    destruct Hcases as [H|[H|[H|[[H Hdl]|[H Hdl]]]]].
    + apply account_read_short; exact H.
    + rewrite account_decode_no_prefix in Hfail by exact H. discriminate.
    + apply account_decode_half_prefix; exact H.
    + apply account_decode_missing_data; [exact H | lia].
    + rewrite account_decode_enough in Hfail by assumption. discriminate.
  - intros H. eexists. split; [apply account_decode_no_prefix; exact H|].
    reflexivity.
  - intros H Hdl. apply account_decode_missing_data; lia.
Qed.

Lemma account_decode_failure_witness :
  (length account_with_missing_data = 74%nat /\
   declared_length account_with_missing_data = 2) /\
  is_layout_error (decode getDataStorageAccountDecoder account_with_missing_data)
  = true.
Proof.
  split; [split; reflexivity|].
  apply (proj2 (proj2 (proj2 (account_decode_failure account_with_missing_data))));
    reflexivity.
Defined.

Lemma account_view_prefix (bs trailing : bytes) (n : nat) :
  (74 + n <= length bs)%nat ->
  account_view (firstn (74 + n) bs ++ trailing) n = account_view bs n.
Proof.
  intros H. unfold account_view.
  rewrite !slice_app_l by (rewrite length_firstn; lia).
  rewrite !slice_firstn by lia. reflexivity.
Qed.

Lemma declared_length_prefix (bs trailing : bytes) (n : nat) :
  (74 + n <= length bs)%nat ->
  declared_length (firstn (74 + n) bs ++ trailing) = declared_length bs.
Proof.
  intros H. unfold declared_length.
  rewrite slice_app_l by (rewrite length_firstn; lia).
  rewrite slice_firstn by lia. reflexivity.
Qed.

(** C10: Trailing bytes.  Decoding succeeds on every byte sequence with
    at least 74 bytes plus the number of data bytes its length field
    declares, and the account it returns is the one returned for the
    first [74 + dataLength] bytes followed by anything else: the bytes
    after the declared data are not looked at. *)
Theorem account_decode_ignores_trailing (bs : bytes) :
  74 + declared_length bs <= Z.of_nat (length bs) ->
  exists account,
    decode getDataStorageAccountDecoder bs = Ok account /\
    forall trailing : bytes,
      decode getDataStorageAccountDecoder
        (firstn (74 + Z.to_nat (declared_length bs)) bs ++ trailing)
      = Ok account.
Proof.
  intros Hdl. pose proof (declared_length_nonneg bs) as Hnn.
  exists (account_view bs (Z.to_nat (declared_length bs))).
  split; [apply account_decode_enough; lia|].
  intros trailing.
  rewrite account_decode_enough.
  - rewrite declared_length_prefix by lia.
    rewrite account_view_prefix by lia. reflexivity.
  - rewrite length_app, length_firstn. lia.
  - rewrite declared_length_prefix by lia.
    rewrite length_app, length_firstn. lia.
Qed.

Lemma account_decode_ignores_trailing_witness :
  74 + declared_length account_with_trailing_bytes
  <= Z.of_nat (length account_with_trailing_bytes) /\
  exists account,
    decode getDataStorageAccountDecoder account_with_trailing_bytes = Ok account /\
    decode getDataStorageAccountDecoder
      (firstn (74 + Z.to_nat (declared_length account_with_trailing_bytes))
         account_with_trailing_bytes ++ [])
    = Ok account.
Proof.
  split; [vm_compute; discriminate|].
  destruct (account_decode_ignores_trailing account_with_trailing_bytes)
    as [account [Hdec Htrail]]; [vm_compute; discriminate|].
  exists account. split; [exact Hdec | apply Htrail].
Defined.

(** ** Round trip through the account layout *)

Lemma address_decode_32 (bs : bytes) :
  length bs = 32%nat ->
  decode getAddressDecoder bs = Ok (baseX_text base58_alphabet bs).
Proof.
  intros H. unfold decode, getAddressDecoder.
  rewrite fix_read_ok by (reflexivity || lia).
  cbn [Nat.add]. rewrite <- H, slice_whole.
  rewrite base58_read by lia. reflexivity.
Qed.

Lemma serialized_account_decodes (a : LedgerAccount) :
  length (la_authority a) = 32%nat ->
  Z.of_nat (length (la_data a)) <= 65535 ->
  decode getDataStorageAccountDecoder (serialize_account a)
  = Ok (account_view (serialize_account a) (length (la_data a))).
Proof.
  intros Hauth Hdata.
  assert (Hdl : declared_length (serialize_account a)
                = Z.of_nat (length (la_data a))).
  { unfold declared_length. rewrite serialized_prefix by exact Hauth.
    apply le_unsigned_le_bytes_2. lia. }
  rewrite account_decode_enough.
  - rewrite Hdl, Nat2Z.id. reflexivity.
  - rewrite serialized_length by exact Hauth. lia.
  - rewrite Hdl, serialized_length by exact Hauth. lia.
Qed.

Lemma label_with_nul_counterexample :
  (length (TextEncoder_encode (la_label account_with_nul_label)) <= 30)%nat /\
  Z.of_nat (length (la_data account_with_nul_label)) <= 65535 /\
  exists d,
    decode getDataStorageAccountDecoder (serialize_account account_with_nul_label)
    = Ok d /\
    acc_label d = [97; 98] /\
    acc_label d <> la_label account_with_nul_label.
Proof.
  split; [simpl; lia|]. split; [simpl; lia|].
  eexists. split; [vm_compute; reflexivity|].
  split; [reflexivity | discriminate].
Qed.

(** C3 (amended): Round trip through the account layout.  For every
    account with a 32-byte authority, a label of at most 30 UTF-8 bytes,
    a timestamp that fits 64 signed bits and at most 65535 data bytes,
    decoding its serialization succeeds and recovers the authority (as
    the address of its 32 bytes, which no other 32 bytes have),
    lastUpdated, canonicalBump, isInitialized and the data.  The label comes back with all its NUL
    characters removed, the padding and any NUL of the label itself,
    when it is well-formed text that does not start with a byte order
    mark; so it comes back unchanged when it has, besides, no NUL
    character. *)
Theorem account_roundtrip (a : LedgerAccount) :
  length (la_authority a) = 32%nat ->
  (length (TextEncoder_encode (la_label a)) <= 30)%nat ->
  - 2 ^ 63 <= la_lastUpdated a < 2 ^ 63 ->
  Z.of_nat (length (la_data a)) <= 65535 ->
  exists d,
    decode getDataStorageAccountDecoder (serialize_account a) = Ok d /\
    decode getAddressDecoder (la_authority a) = Ok (acc_authority d) /\
    (forall other : bytes,
        length other = 32%nat ->
        decode getAddressDecoder other = Ok (acc_authority d) ->
        other = la_authority a) /\
    acc_lastUpdated d = la_lastUpdated a /\
    acc_canonicalBump d = byte_to_Z (la_canonicalBump a) /\
    acc_isInitialized d = la_isInitialized a /\
    acc_data d = numbers_of (la_data a) /\
    (well_formed_utf16 (la_label a) = true ->
     starts_with_bom (la_label a) = false ->
     acc_label d = removeNullCharacters (la_label a)) /\
    (plain_text (la_label a) = true -> acc_label d = la_label a).
Proof.
  intros Hauth Hlabel Htime Hdata.
  exists (account_view (serialize_account a) (length (la_data a))).
  split; [apply serialized_account_decodes; assumption|].
  unfold account_view.
  cbn [acc_authority acc_label acc_lastUpdated acc_canonicalBump
       acc_isInitialized acc_data].
  rewrite serialized_authority, serialized_label, serialized_lastUpdated,
    serialized_canonicalBump, serialized_isInitialized, serialized_data
    by exact Hauth.
  rewrite pad_or_truncate_short by exact Hlabel.
  repeat split.
  - apply address_decode_32. exact Hauth.
  - intros other Hother Htext.
    rewrite address_decode_32 in Htext by exact Hother.
    injection Htext as Htext.
    apply base58_text_injective; [lia | exact Htext].
  - apply le_signed_le_bytes_8. exact Htime.
  - cbn [le_unsigned]. lia.
  - destruct (la_isInitialized a); reflexivity.
  - intros Hwf Hbom. apply decode_padded_text; assumption.
  - intros Hplain. apply decode_padded_label. exact Hplain.
Qed.

Lemma account_roundtrip_witness :
  (length (la_authority test_account) = 32%nat /\
   (length (TextEncoder_encode (la_label test_account)) <= 30)%nat /\
   - 2 ^ 63 <= la_lastUpdated test_account < 2 ^ 63 /\
   Z.of_nat (length (la_data test_account)) <= 65535 /\
   plain_text (la_label test_account) = true) /\
  exists d,
    decode getDataStorageAccountDecoder (serialize_account test_account) = Ok d /\
    acc_label d = js "+PooriaGG + Solana + + + + + )" /\
    acc_data d = [12; 12; 56; 42; 12; 99; 88; 77; 56; 75] /\
    acc_isInitialized d = true /\
    acc_lastUpdated d = 0.
Proof.
  split.
  - repeat split; try reflexivity; simpl; lia.
  - destruct (account_roundtrip test_account)
      as [d [Hd [_ [_ [Htime [_ [Hinit [Hdata [_ Hlabel]]]]]]]]];
      [reflexivity | simpl; lia | simpl; lia | simpl; lia |].
    exists d. split; [exact Hd|].
    split; [apply Hlabel; reflexivity|].
    split; [exact Hdata|].
    split; [exact Hinit | exact Htime].
Defined.

(** * Further properties of the codecs and builders *)

(** ** What the payload encoders return and when they fail *)







(** ** Which error the account decoder raises *)

Lemma number_read_empty (size : nat) (get : bytes -> Z) (bs : bytes) (offset : nat) :
  (length bs <= offset)%nat ->
  dec_read (numberDecoder size get) bs offset = Err CannotDecodeEmptyByteArray.
Proof.
  intros H. cbn [dec_read numberDecoder].
  unfold assertByteArrayIsNotEmptyForCodec.
  destruct (Z.leb_spec (Z.of_nat (length bs) - Z.of_nat offset) 0);
    [reflexivity | lia].
Qed.

Lemma number_read_short (size : nat) (get : bytes -> Z) (bs : bytes) (offset : nat) :
  (offset < length bs < offset + size)%nat ->
  dec_read (numberDecoder size get) bs offset = Err InvalidByteLength.
Proof.
  intros H. cbn [dec_read numberDecoder].
  unfold assertByteArrayIsNotEmptyForCodec.
  destruct (Z.leb_spec (Z.of_nat (length bs) - Z.of_nat offset) 0); [lia|].
  cbn [bind]. rewrite enough_bytes_err by lia. reflexivity.
Qed.

Lemma read_u8_items_missing (n : nat) (bs : bytes) :
  forall offset : nat,
    (offset <= length bs < offset + n)%nat ->
    read_items getU8Decoder n bs offset = Err CannotDecodeEmptyByteArray.
Proof.
  induction n as [|n IH]; intros offset H; [lia|].
  cbn [read_items].
  destruct (Nat.le_gt_cases (length bs) offset) as [Hend|Hmore].
  - unfold getU8Decoder at 1. rewrite number_read_empty by lia. reflexivity.
  - unfold getU8Decoder at 1. rewrite number_read_ok by lia. cbn [bind].
    rewrite IH by lia. reflexivity.
Qed.

(** X2: The error of a failed account decoding.  An input too short for
    the authority or the label (fewer than 62 bytes) or that stops inside
    lastUpdated or inside the length field (63 to 69 bytes, 73 bytes) is
    the error INVALID_BYTE_LENGTH; an input that stops exactly where
    lastUpdated, canonicalBump or isInitialized starts (62, 70 or 71
    bytes), or that has its length field and fewer data bytes than it
    declares, is the error CANNOT_DECODE_EMPTY_BYTE_ARRAY. *)
Theorem account_decode_error_kind (bs : bytes) :
  ((length bs < 62)%nat ->
   decode getDataStorageAccountDecoder bs = Err InvalidByteLength) /\
  ((62 < length bs < 70)%nat ->
   decode getDataStorageAccountDecoder bs = Err InvalidByteLength) /\
  (length bs = 62%nat \/ length bs = 70%nat \/ length bs = 71%nat ->
   decode getDataStorageAccountDecoder bs = Err CannotDecodeEmptyByteArray) /\
  (length bs = 73%nat ->
   decode getDataStorageAccountDecoder bs = Err InvalidByteLength) /\
  ((74 <= length bs)%nat ->
   Z.of_nat (length bs) - 74 < declared_length bs ->
   decode getDataStorageAccountDecoder bs = Err CannotDecodeEmptyByteArray).
Proof.
  assert (Hauth : (32 <= length bs)%nat ->
    dec_read getAddressDecoder bs 0
    = Ok (baseX_text base58_alphabet (slice bs 0 32), 32%nat)).
  { intros H. unfold getAddressDecoder.
    rewrite fix_read_ok by (reflexivity || lia).
    rewrite base58_read by (rewrite slice_length; lia). reflexivity. }
  assert (Hlabel : (62 <= length bs)%nat ->
    dec_read (fixDecoderSize getUtf8Decoder 30) bs 32
    = Ok (removeNullCharacters (TextDecoder_decode (slice bs 32 62)), 62%nat)).
  { intros H. rewrite fix_read_ok by (reflexivity || lia). reflexivity. }
  repeat split.
  - intros H. unfold decode. cbn [dec_read getDataStorageAccountDecoder].
    destruct (Nat.le_gt_cases 32 (length bs)) as [H32|H32].
    + rewrite Hauth by exact H32. cbn [bind].
      rewrite fix_read_err by lia. reflexivity.
    + unfold getAddressDecoder. rewrite fix_read_err by lia. reflexivity.
  - intros H. unfold decode. cbn [dec_read getDataStorageAccountDecoder].
    rewrite Hauth by lia. cbn [bind]. rewrite Hlabel by lia. cbn [bind].
    unfold getI64Decoder. rewrite number_read_short by lia. reflexivity.
  - intros H. unfold decode. cbn [dec_read getDataStorageAccountDecoder].
    rewrite Hauth by lia. cbn [bind]. rewrite Hlabel by lia. cbn [bind].
    destruct H as [H|[H|H]].
    + unfold getI64Decoder. rewrite number_read_empty by lia. reflexivity.
    + unfold getI64Decoder. rewrite number_read_ok by lia. cbn [bind].
      unfold getU8Decoder at 1. rewrite number_read_empty by lia. reflexivity.
    + unfold getI64Decoder. rewrite number_read_ok by lia. cbn [bind].
      unfold getU8Decoder at 1. rewrite number_read_ok by lia. cbn [bind].
      unfold getBooleanDecoder. cbn [dec_read transformDecoder].
      unfold getU8Decoder at 1. rewrite number_read_empty by lia. reflexivity.
  - intros H. unfold decode. rewrite account_read_fixed_fields by lia.
    cbn [dec_read getArrayDecoder]. rewrite length_skipn, H.
    cbn [Nat.sub Nat.eqb].
    unfold getU16Decoder. rewrite number_read_short by lia. reflexivity.
  - intros H Hdl. unfold decode. rewrite account_read_fixed_fields by lia.
    rewrite data_read_prefixed by exact H.
    pose proof (declared_length_nonneg bs).
    rewrite read_u8_items_missing by lia. reflexivity.
Qed.

Lemma account_decode_error_kind_witness :
  (length (repeat x01 71) = 62%nat \/
   length (repeat x01 71) = 70%nat \/
   length (repeat x01 71) = 71%nat) /\
  decode getDataStorageAccountDecoder (repeat x01 71)
  = Err CannotDecodeEmptyByteArray.
Proof.
  split; [right; right; reflexivity|].
  apply (proj1 (proj2 (proj2
    (account_decode_error_kind (repeat x01 71))))).
  right. right. reflexivity.
Defined.

(** ** Where the account decoder reads each field *)

(** What a successful decoding returns: the view of the input with the
    number of data bytes its length field declares, or with none when the
    input stops before the length field. *)
Lemma account_decode_inv (bs : bytes) (a : DataStorageAccount) :
  decode getDataStorageAccountDecoder bs = Ok a ->
  (length bs = 72%nat /\ a = account_view bs 0) \/
  ((74 <= length bs)%nat /\
   74 + declared_length bs <= Z.of_nat (length bs) /\
   a = account_view bs (Z.to_nat (declared_length bs))).
Proof.
  intros Hdec.
  assert (Hcases :
    (length bs < 72)%nat \/ length bs = 72%nat \/ length bs = 73%nat \/
    ((74 <= length bs)%nat /\ Z.of_nat (length bs) < 74 + declared_length bs) \/
    ((74 <= length bs)%nat /\ 74 + declared_length bs <= Z.of_nat (length bs)))
    by lia.
  destruct Hcases as [H|[H|[H|[[H Hdl]|[H Hdl]]]]].
  - pose proof (account_read_short bs H) as E. rewrite Hdec in E. discriminate.
  - left. rewrite account_decode_no_prefix in Hdec by exact H.
    injection Hdec as <-. auto.
  - pose proof (account_decode_half_prefix bs H) as E.
    rewrite Hdec in E. discriminate.
  - pose proof (account_decode_missing_data bs H Hdl) as E.
    rewrite Hdec in E. discriminate.
  - right. rewrite account_decode_enough in Hdec by assumption.
    injection Hdec as <-. auto.
Qed.

Lemma slice_one (bs : bytes) :
  forall i : nat, (i < length bs)%nat -> slice bs i (S i) = [nth i bs x00].
Proof.
  unfold slice. induction bs as [|b bs IH]; intros i Hi; cbn [length] in Hi;
    [lia|].
  replace (S i - i)%nat with 1%nat by lia.
  destruct i as [|i].
  - reflexivity.
  - cbn [skipn nth]. specialize (IH i ltac:(lia)).
    replace (S i - i)%nat with 1%nat in IH by lia. exact IH.
Qed.

Lemma slice_two (bs : bytes) (i : nat) :
  (i + 2 <= length bs)%nat ->
  slice bs i (S (S i)) = [nth i bs x00; nth (S i) bs x00].
Proof.
  intros Hi. replace (S (S i)) with (i + (1 + 1))%nat by lia.
  rewrite slice_split.
  replace (i + 1)%nat with (S i) by lia.
  replace (S i + 1)%nat with (S (S i)) by lia.
  rewrite !slice_one by lia. reflexivity.
Qed.

Lemma byte_is_one (b : byte) : (byte_to_Z b =? 1) = true <-> b = x01.
Proof.
  rewrite Z.eqb_eq. split.
  - intros H. apply byte_to_Z_inj. exact H.
  - intros ->. reflexivity.
Qed.

(** X3: The layout the account decoder reads.  In a successful decoding
    the authority is the address of bytes 0..31, the label is the text of
    bytes 32..61 without its NUL characters, lastUpdated is the signed
    little-endian value of bytes 62..69, canonicalBump is byte 70,
    isInitialized is true exactly when byte 71 is 1 (any other value
    reads as false, with no error), and the data are the bytes from
    offset 74, as many as bytes 72 and 73 declare (little-endian), or
    none when the input has exactly 72 bytes. *)
Theorem account_decode_layout (bs : bytes) (a : DataStorageAccount) :
  decode getDataStorageAccountDecoder bs = Ok a ->
  decode getAddressDecoder (slice bs 0 32) = Ok (acc_authority a) /\
  acc_label a = removeNullCharacters (TextDecoder_decode (slice bs 32 62)) /\
  acc_lastUpdated a = le_signed (slice bs 62 70) /\
  acc_canonicalBump a = byte_to_Z (nth 70 bs x00) /\
  (acc_isInitialized a = true <-> nth 71 bs x00 = x01) /\
  acc_data a = map byte_to_Z (slice bs 74 (74 + length (acc_data a))) /\
  ((length bs = 72%nat /\ acc_data a = []) \/
   ((74 + length (acc_data a) <= length bs)%nat /\
    Z.of_nat (length (acc_data a))
    = byte_to_Z (nth 72 bs x00) + 256 * byte_to_Z (nth 73 bs x00))).
Proof.
  intros Hdec.
  assert (Hview : exists n,
    a = account_view bs n /\ (72 <= length bs)%nat /\
    ((length bs = 72%nat /\ n = 0%nat) \/
     ((74 + n <= length bs)%nat /\ Z.of_nat n = declared_length bs))).
  { pose proof (declared_length_nonneg bs) as Hnn.
    destruct (account_decode_inv bs a Hdec) as [[H ->]|[H [Hdl ->]]].
    - exists 0%nat. split; [reflexivity|]. split; [lia|]. left. auto.
    - eexists. split; [reflexivity|]. split; [lia|]. right. split; lia. }
  destruct Hview as [n [-> [Hlen Hn]]].
  assert (Hdata : length (acc_data (account_view bs n)) = n).
  { cbn [acc_data account_view]. rewrite length_map.
    destruct Hn as [[H72 ->]|[Hn _]]; [reflexivity|].
    apply slice_length. exact Hn. }
  rewrite Hdata. cbn [account_view acc_authority acc_label acc_lastUpdated
    acc_canonicalBump acc_isInitialized acc_data].
  repeat split.
  - apply address_decode_32. apply (slice_length bs 0 32). lia.
  - rewrite (slice_one bs 70) by lia. cbn [le_unsigned]. lia.
  - rewrite (slice_one bs 71) by lia. cbn [le_unsigned].
    rewrite Z.mul_0_r, Z.add_0_r. apply byte_is_one.
  - rewrite (slice_one bs 71) by lia. cbn [le_unsigned].
    rewrite Z.mul_0_r, Z.add_0_r. apply byte_is_one.
  - destruct Hn as [[H72 ->]|[Hn Hdl]]; [left; auto|].
    right. split; [exact Hn|].
    rewrite Hdl. unfold declared_length.
    rewrite (slice_two bs 72) by lia. cbn [le_unsigned Nat.add]. lia.
Qed.

Lemma account_decode_layout_witness :
  decode getDataStorageAccountDecoder (repeat x02 72 ++ [x01; x00; x09; x09])
  = Ok (account_view (repeat x02 72 ++ [x01; x00; x09; x09]) 1) /\
  (acc_isInitialized
     (account_view (repeat x02 72 ++ [x01; x00; x09; x09]) 1) = true <->
   nth 71 (repeat x02 72 ++ [x01; x00; x09; x09]) x00 = x01).
Proof.
  split; [vm_compute; reflexivity|].
  apply (account_decode_layout (repeat x02 72 ++ [x01; x00; x09; x09])).
  vm_compute. reflexivity.
Defined.

(** ** The ranges of the decoded values *)

Lemma le_unsigned_range (bs : bytes) :
  0 <= le_unsigned bs < 256 ^ Z.of_nat (length bs).
Proof.
  induction bs as [|b bs IH]; [cbn; lia|].
  cbn [le_unsigned length]. rewrite Nat2Z.inj_succ, Z.pow_succ_r by lia.
  pose proof (byte_to_Z_range b). lia.
Qed.

Lemma le_signed_8_range (bs : bytes) :
  length bs = 8%nat -> - 2 ^ 63 <= le_signed bs < 2 ^ 63.
Proof.
  intros H. unfold le_signed. pose proof (le_unsigned_range bs) as Hr.
  rewrite H in *. change (256 ^ Z.of_nat 8) with (2 ^ 64) in Hr.
  change (8 * Z.of_nat 8 - 1) with 63. change (8 * Z.of_nat 8) with 64.
  destruct (Z.ltb_spec (le_unsigned bs) (2 ^ 63)); lia.
Qed.

(** X4: The ranges of the decoded values.  In every account the decoder
    returns, lastUpdated is a signed 64-bit value, canonicalBump and
    every item of the data are in 0..255, and the data has at most 65535
    items. *)
Theorem account_decode_ranges (bs : bytes) (a : DataStorageAccount) :
  decode getDataStorageAccountDecoder bs = Ok a ->
  - 2 ^ 63 <= acc_lastUpdated a < 2 ^ 63 /\
  0 <= acc_canonicalBump a <= 255 /\
  forallb is_u8 (acc_data a) = true /\
  Z.of_nat (length (acc_data a)) <= 65535.
Proof.
  intros Hdec.
  assert (Hview : exists n,
    a = account_view bs n /\ (72 <= length bs)%nat /\
    (n = 0%nat \/ ((74 <= length bs)%nat /\ Z.of_nat n = declared_length bs))).
  { pose proof (declared_length_nonneg bs) as Hnn.
    destruct (account_decode_inv bs a Hdec) as [[H ->]|[H [Hdl ->]]].
    - exists 0%nat. split; [reflexivity|]. split; [lia|]. left. reflexivity.
    - eexists. split; [reflexivity|]. split; [lia|]. right. split; lia. }
  destruct Hview as [n [-> [Hlen Hn]]].
  cbn [account_view acc_lastUpdated acc_canonicalBump acc_data].
  pose proof (le_signed_8_range (slice bs 62 70)
                (slice_length bs 62 8 ltac:(lia))) as Htime.
  pose proof (le_unsigned_range (slice bs 70 71)) as Hbump.
  pose proof (slice_length bs 70 1 ltac:(lia)) as Hone.
  cbn [Nat.add] in Hone. rewrite Hone in Hbump.
  change (256 ^ Z.of_nat 1) with 256 in Hbump.
  split; [exact Htime|]. split; [lia|].
  split; [apply numbers_of_u8|].
  rewrite length_map.
  destruct Hn as [->|[H74 Hdl]].
  - unfold slice. rewrite length_firstn. lia.
  - pose proof (le_unsigned_range (slice bs 72 74)) as Hprefix.
    pose proof (slice_length bs 72 2 ltac:(lia)) as Htwo.
    cbn [Nat.add] in Htwo. rewrite Htwo in Hprefix.
    change (256 ^ Z.of_nat 2) with 65536 in Hprefix.
    fold (declared_length bs) in Hprefix.
    pose proof (length_firstn n (skipn 74 bs)) as Hfirst.
    unfold slice. replace (74 + n - 74)%nat with n by lia. lia.
Qed.

Lemma account_decode_ranges_witness :
  decode getDataStorageAccountDecoder (repeat xff 72 ++ [x01; x00; x09; x09])
  = Ok (account_view (repeat xff 72 ++ [x01; x00; x09; x09]) 1) /\
  - 2 ^ 63
  <= acc_lastUpdated (account_view (repeat xff 72 ++ [x01; x00; x09; x09]) 1)
  < 2 ^ 63.
Proof.
  split; [vm_compute; reflexivity|].
  apply (account_decode_ranges (repeat xff 72 ++ [x01; x00; x09; x09])).
  vm_compute. reflexivity.
Defined.

(** ** The text the label decoder returns *)

Lemma scalar_one_unit (c : Z) :
  0 <= c < 0x10000 -> ~ (0xD800 <= c <= 0xDFFF) ->
  is_scalar_value c = true /\ of_scalar c = [c].
Proof.
  intros Hc Hs. split.
  - apply is_scalar_value_spec. lia.
  - unfold of_scalar. settle_tests. reflexivity.
Qed.

Lemma scalar_two_units (c : Z) :
  0x10000 <= c <= 0x10FFFF ->
  is_scalar_value c = true /\ length (of_scalar c) = 2%nat.
Proof.
  intros Hc. split.
  - apply is_scalar_value_spec. lia.
  - unfold of_scalar. settle_tests. reflexivity.
Qed.

Lemma utf8_initial_ok : utf8_state_ok utf8_initial.
Proof. unfold utf8_state_ok. utf8_state_cbn. lia. Qed.

Lemma utf8_lead_ok (b : Z) :
  0 <= b <= 255 ->
  utf8_state_ok (fst (utf8_lead b)) /\
  forallb is_scalar_value (snd (utf8_lead b)) = true /\
  (length (of_scalars (snd (utf8_lead b))) + utf8_pending (fst (utf8_lead b))
   = 1)%nat.
Proof.
  intros Hb. unfold utf8_lead.
  destruct (Z.leb_spec b 0x7F) as [H1|H1].
  { destruct (scalar_one_unit b ltac:(lia) ltac:(lia)) as [Hs Hu].
    unfold of_scalars. utf8_state_cbn. cbn [flat_map]. rewrite Hs, Hu.
    split; [apply utf8_initial_ok | split; reflexivity]. }
  destruct ((0xC2 <=? b) && (b <=? 0xDF)) eqn:H2.
  { apply andb_true_iff in H2. rewrite !Z.leb_le in H2.
    unfold utf8_state_ok, utf8_pending. utf8_state_cbn. rewrite land_1F.
    repeat split; try reflexivity; arith. }
  destruct ((0xE0 <=? b) && (b <=? 0xEF)) eqn:H3.
  { apply andb_true_iff in H3. rewrite !Z.leb_le in H3.
    unfold utf8_state_ok, utf8_pending. utf8_state_cbn. rewrite land_0F.
    destruct (Z.eqb_spec b 0xE0); destruct (Z.eqb_spec b 0xED);
      repeat split; try reflexivity; intros; arith. }
  destruct ((0xF0 <=? b) && (b <=? 0xF4)) eqn:H4.
  { apply andb_true_iff in H4. rewrite !Z.leb_le in H4.
    unfold utf8_state_ok, utf8_pending. utf8_state_cbn. rewrite land_07.
    destruct (Z.eqb_spec b 0xF0); destruct (Z.eqb_spec b 0xF4);
      repeat split; try reflexivity; intros; arith. }
  split; [apply utf8_initial_ok | split; reflexivity].
Qed.

Lemma utf8_step_ok (st : utf8_state) (b : Z) :
  utf8_state_ok st ->
  0 <= b <= 255 ->
  utf8_state_ok (fst (utf8_step st b)) /\
  forallb is_scalar_value (snd (utf8_step st b)) = true /\
  (length (of_scalars (snd (utf8_step st b)))
   + utf8_pending (fst (utf8_step st b))
   <= utf8_pending st + 1)%nat.
Proof.
  intros Hst Hb. pose proof (utf8_lead_ok b Hb) as [Hl1 [Hl2 Hl3]].
  destruct st as [cp needed seen lower upper].
  unfold utf8_state_ok in Hst. cbn [u_code_point u_bytes_needed u_bytes_seen
    u_lower u_upper] in Hst. destruct Hst as [Hlo [Hup Hcp]].
  unfold utf8_step. cbn [u_code_point u_bytes_needed u_bytes_seen u_lower u_upper].
  destruct needed as [|needed].
  { cbn [Nat.eqb]. split; [exact Hl1|]. split; [exact Hl2|].
    unfold utf8_pending at 2. cbn [u_bytes_needed Nat.eqb]. lia. }
  cbn [Nat.eqb].
  destruct ((b <? lower) || (upper <? b)) eqn:Hout.
  { destruct (utf8_lead b) as [st' out]. cbn [fst snd] in *.
    split; [exact Hl1|]. split; [cbn [forallb]; rewrite Hl2; reflexivity|].
    unfold of_scalars in *. cbn [flat_map]. rewrite length_app.
    unfold utf8_pending at 2. cbn [u_bytes_needed u_bytes_seen Nat.eqb].
    change (length (of_scalar 0xFFFD)) with 1%nat. lia. }
  apply orb_false_iff in Hout. destruct Hout as [Hge Hle].
  apply Z.ltb_ge in Hge, Hle.
  rewrite land_3F, shiftl_6_lor by arith.
  destruct needed as [|[|[|needed]]]; destruct seen as [|[|[|seen]]];
    try contradiction; cbn [Nat.eqb fst snd];
    unfold utf8_state_ok, utf8_pending, of_scalars;
    utf8_state_cbn; cbn [flat_map]; rewrite ?app_nil_r.
  - destruct (scalar_one_unit (cp * 64 + b mod 64)) as [-> ->]; try arith;
      cbn [length]; repeat split; lia.
  - cbn [length]. repeat split; try arith.
  - destruct (scalar_one_unit (cp * 64 + b mod 64)) as [-> ->]; try arith;
      cbn [length]; repeat split; lia.
  - cbn [length]. repeat split; try arith.
  - cbn [length]. repeat split; try arith.
  - destruct (scalar_two_units (cp * 64 + b mod 64)) as [-> ->]; try arith;
      repeat split; lia.
Qed.

Lemma of_scalars_app (cs ds : list Z) :
  of_scalars (cs ++ ds) = of_scalars cs ++ of_scalars ds.
Proof. apply flat_map_app. Qed.

(** Whatever the bytes, the decoder emits scalar values only, and no more
    UTF-16 code units than it has read bytes. *)
Lemma utf8_run_ok (bs : list Z) :
  forall st : utf8_state,
    utf8_state_ok st ->
    Forall (fun b => 0 <= b <= 255) bs ->
    forallb is_scalar_value (utf8_run st bs) = true /\
    (length (of_scalars (utf8_run st bs)) <= length bs + utf8_pending st)%nat.
Proof.
  induction bs as [|b bs IH]; intros st Hst Hbs.
  - cbn [utf8_run]. unfold utf8_pending.
    destruct (u_bytes_needed st =? 0)%nat; split; try reflexivity; cbn; lia.
  - inversion Hbs as [|? ? Hb Hbs']; subst.
    cbn [utf8_run].
    destruct (utf8_step_ok st b Hst Hb) as [Hst' [Hout Hunits]].
    destruct (utf8_step st b) as [st' out]. cbn [fst snd] in *.
    destruct (IH st' Hst' Hbs') as [Hrest Hlen].
    rewrite forallb_app, Hout, Hrest, of_scalars_app, length_app.
    split; [reflexivity|]. cbn [length]. lia.
Qed.

Lemma of_scalar_units (c : Z) :
  is_scalar_value c = true ->
  (c < 0x10000 /\ of_scalar c = [c] /\
   is_high_surrogate c = false /\ is_low_surrogate c = false /\ 0 <= c) \/
  (exists hi lo,
      of_scalar c = [hi; lo] /\
      is_high_surrogate hi = true /\ is_low_surrogate lo = true).
Proof.
  intros Hc. apply is_scalar_value_spec in Hc. destruct Hc as [Hrange Hsur].
  unfold of_scalar. destruct (Z.ltb_spec c 0x10000) as [Hbmp|Hsup].
  - left. unfold is_high_surrogate, is_low_surrogate.
    repeat split; try lia; apply andb_false_iff; rewrite !Z.leb_gt; lia.
  - right. eexists. eexists. split; [reflexivity|].
    rewrite Z.shiftr_div_pow2, land_3FF by lia. change (2 ^ 10) with 1024.
    unfold is_high_surrogate, is_low_surrogate.
    rewrite !andb_true_iff, !Z.leb_le. arith.
Qed.

Lemma of_scalars_well_formed (cs : list Z) :
  forallb is_scalar_value cs = true ->
  well_formed_utf16 (of_scalars cs) = true.
Proof.
  induction cs as [|c cs IH]; intros Hcs; [reflexivity|].
  cbn [forallb] in Hcs. apply andb_true_iff in Hcs. destruct Hcs as [Hc Hcs].
  specialize (IH Hcs). unfold of_scalars in *. cbn [flat_map].
  destruct (of_scalar_units c Hc)
    as [[Hbmp [-> [Hhigh [Hlow Hnn]]]]|[hi [lo [-> [Hhigh Hlow]]]]];
    cbn [app well_formed_utf16]; rewrite Hhigh, Hlow.
  - rewrite IH. cbn [negb]. rewrite !andb_true_r, andb_true_iff, !Z.leb_le. lia.
  - rewrite IH. reflexivity.
Qed.

Lemma remove_null_of_scalars (cs : list Z) :
  forallb is_scalar_value cs = true ->
  removeNullCharacters (of_scalars cs)
  = of_scalars (filter (fun c => negb (c =? 0)) cs).
Proof.
  induction cs as [|c cs IH]; intros Hcs; [reflexivity|].
  cbn [forallb] in Hcs. apply andb_true_iff in Hcs. destruct Hcs as [Hc Hcs].
  specialize (IH Hcs). unfold of_scalars, removeNullCharacters in *.
  cbn [flat_map filter]. rewrite filter_app, IH.
  destruct (of_scalar_units c Hc)
    as [[Hbmp [Hone _]]|[hi [lo [Htwo [Hhigh Hlow]]]]].
  - rewrite Hone. cbn [filter].
    destruct (negb (c =? 0)); cbn [flat_map app]; [rewrite Hone|]; reflexivity.
  - unfold is_high_surrogate, is_low_surrogate in *.
    apply andb_true_iff in Hhigh, Hlow. rewrite !Z.leb_le in Hhigh, Hlow.
    assert (Hc0 : c <> 0).
    { intros ->. discriminate Htwo. }
    rewrite (proj2 (Z.eqb_neq _ _) Hc0). cbn [negb flat_map].
    rewrite Htwo. cbn [filter].
    rewrite (proj2 (Z.eqb_neq hi 0)), (proj2 (Z.eqb_neq lo 0)) by lia.
    reflexivity.
Qed.

Lemma forallb_filter_same {A : Type} (f : A -> bool) (l : list A) :
  forallb f (filter f l) = true.
Proof.
  induction l as [|x l IH]; [reflexivity|].
  cbn [filter]. destruct (f x) eqn:Hx; [|exact IH].
  cbn [forallb]. rewrite Hx, IH. reflexivity.
Qed.

Lemma forallb_filter_keeps {A : Type} (f g : A -> bool) (l : list A) :
  forallb f l = true -> forallb f (filter g l) = true.
Proof.
  induction l as [|x l IH]; [reflexivity|].
  cbn [forallb filter]. intros H. apply andb_true_iff in H. destruct H as [Hx Hl].
  destruct (g x); [cbn [forallb]; rewrite Hx|]; auto.
Qed.

Lemma filter_length_le {A : Type} (f : A -> bool) (l : list A) :
  (length (filter f l) <= length l)%nat.
Proof.
  induction l as [|x l IH]; [reflexivity|].
  cbn [filter]. destruct (f x); cbn [length]; lia.
Qed.

Lemma strip_bom_ok (cs : list Z) :
  forallb is_scalar_value cs = true ->
  forallb is_scalar_value (strip_bom cs) = true /\
  (length (of_scalars (strip_bom cs)) <= length (of_scalars cs))%nat.
Proof.
  intros Hcs. destruct cs as [|c cs]; [split; [reflexivity | cbn; lia]|].
  cbn [strip_bom]. destruct (c =? 0xFEFF); [|split; [exact Hcs | lia]].
  cbn [forallb] in Hcs. apply andb_true_iff in Hcs. destruct Hcs as [_ Hcs].
  split; [exact Hcs|]. unfold of_scalars. cbn [flat_map].
  rewrite length_app. lia.
Qed.

(** The text decoded from any bytes is well-formed UTF-16 and has at most
    one code unit per byte; so is what is left of it without its NUL
    characters. *)
Lemma decoded_text_ok (bs : bytes) :
  let text := removeNullCharacters (TextDecoder_decode bs) in
  well_formed_utf16 text = true /\
  has_no_null text = true /\
  (length text <= length bs)%nat.
Proof.
  intros text. subst text. unfold TextDecoder_decode, utf8_decode.
  destruct (utf8_run_ok (map byte_to_Z bs) utf8_initial utf8_initial_ok)
    as [Hsc Hlen].
  { apply Forall_forall. intros z Hz. apply in_map_iff in Hz.
    destruct Hz as [b [<- _]]. apply byte_to_Z_range. }
  rewrite length_map in Hlen. change (utf8_pending utf8_initial) with 0%nat in Hlen.
  destruct (strip_bom_ok _ Hsc) as [Hsc' Hlen'].
  split; [|split].
  - rewrite remove_null_of_scalars by exact Hsc'.
    apply of_scalars_well_formed. apply forallb_filter_keeps. exact Hsc'.
  - apply forallb_filter_same.
  - pose proof (filter_length_le (fun c => negb (c =? 0))
                  (of_scalars (strip_bom (utf8_run utf8_initial (map byte_to_Z bs))))).
    unfold removeNullCharacters. lia.
Qed.

(** X5: The label of a decoded account.  Whatever the bytes of the label
    slot, the label the account decoder returns is well-formed UTF-16
    text (invalid UTF-8 has become U+FFFD, never a lone surrogate), has
    no NUL character and has at most 30 code units. *)
Theorem account_decode_label (bs : bytes) (a : DataStorageAccount) :
  decode getDataStorageAccountDecoder bs = Ok a ->
  well_formed_utf16 (acc_label a) = true /\
  has_no_null (acc_label a) = true /\
  (length (acc_label a) <= 30)%nat.
Proof.
  intros Hdec.
  assert (Hlabel : acc_label a
                   = removeNullCharacters (TextDecoder_decode (slice bs 32 62))).
  { destruct (account_decode_inv bs a Hdec) as [[_ ->]|[_ [_ ->]]]; reflexivity. }
  assert (H72 : (72 <= length bs)%nat).
  { destruct (account_decode_inv bs a Hdec) as [[H _]|[H _]]; lia. }
  rewrite Hlabel.
  destruct (decoded_text_ok (slice bs 32 62)) as [Hwf [Hnull Hlen]].
  pose proof (slice_length bs 32 30 ltac:(lia)) as Hslot.
  cbn [Nat.add] in Hslot. rewrite Hslot in Hlen.
  auto.
Qed.

Lemma account_decode_label_witness :
  decode getDataStorageAccountDecoder
    (repeat x01 32 ++ [xed; xa0; x80; xff; x00; x41] ++ repeat x00 34)
  = Ok (account_view
          (repeat x01 32 ++ [xed; xa0; x80; xff; x00; x41] ++ repeat x00 34) 0) /\
  well_formed_utf16
    (acc_label
       (account_view
          (repeat x01 32 ++ [xed; xa0; x80; xff; x00; x41] ++ repeat x00 34) 0))
  = true.
Proof.
  split; [vm_compute; reflexivity|].
  apply (account_decode_label
           (repeat x01 32 ++ [xed; xa0; x80; xff; x00; x41] ++ repeat x00 34)).
  vm_compute. reflexivity.
Defined.

(** ** The authority of a decoded account *)

Lemma base58_digits_in_alphabet (value : Z) :
  0 <= value ->
  Forall (fun c => In c base58_alphabet)
    (getBaseXFromBigInt value base58_alphabet).
Proof.
  intros Hnn. pattern value. apply Zlt_0_ind; [|exact Hnn].
  intros v IH Hv.
  destruct (Z.eq_dec v 0) as [->|Hne]; [constructor|].
  rewrite base58_digits_step by lia.
  apply Forall_app. split; [apply IH; arith|].
  constructor; [|constructor].
  apply nth_In. rewrite base58_alphabet_length. arith.
Qed.

(** A positive value with [k] digits lies between [58^(k-1)] and
    [58^k]. *)
Lemma base58_digits_count (value : Z) :
  0 < value ->
  let k := Z.of_nat (length (getBaseXFromBigInt value base58_alphabet)) in
  58 ^ (k - 1) <= value < 58 ^ k.
Proof.
  intros Hpos. assert (Hnn : 0 <= value) by lia. revert Hpos.
  pattern value. apply Zlt_0_ind; [|exact Hnn].
  intros v IH Hv Hpos. cbv zeta.
  rewrite base58_digits_step by exact Hpos.
  rewrite length_app. cbn [length]. rewrite Nat2Z.inj_add.
  change (Z.of_nat 1) with 1.
  destruct (Z.eq_dec (v / 58) 0) as [Hq|Hq].
  - rewrite Hq, getBaseXFromBigInt_zero by lia. cbn. arith.
  - specialize (IH (v / 58) ltac:(arith) ltac:(arith)). cbv zeta in IH.
    set (k := Z.of_nat (length (getBaseXFromBigInt (v / 58) base58_alphabet))) in *.
    assert (Hk : 1 <= k).
    { destruct (Z.le_gt_cases 1 k) as [H|H]; [exact H|].
      assert (k = 0) by lia. replace k with 0 in IH by lia.
      cbn in IH. lia. }
    replace (k + 1 - 1) with (Z.succ (k - 1)) by lia.
    replace (k + 1) with (Z.succ k) by lia.
    rewrite !Z.pow_succ_r by lia. arith.
Qed.

Lemma pow_256_58 (m : nat) :
  (m <= 32)%nat -> 256 ^ Z.of_nat m <= 58 ^ (Z.of_nat m + 12).
Proof.
  intros Hm.
  do 33 (destruct m as [|m]; [apply Z.leb_le; vm_compute; reflexivity|]).
  lia.
Qed.

Lemma base58_text_length (bs : bytes) :
  length bs = 32%nat ->
  (32 <= length (baseX_text base58_alphabet bs) <= 44)%nat.
Proof.
  intros Hlen. unfold baseX_text.
  pose proof (leading_zeroes_le bs) as Hz.
  destruct (Nat.eqb_spec (leading_zeroes bs) (length bs)) as [Hall|Hsome].
  - rewrite repeat_length. lia.
  - fold (be_value (skipn (leading_zeroes bs) bs)).
    rewrite length_app, repeat_length.
    destruct (skipn (leading_zeroes bs) bs) as [|b rest] eqn:Hrest.
    { apply (f_equal (@length byte)) in Hrest.
      rewrite length_skipn in Hrest. cbn in Hrest. lia. }
    assert (Hm : (leading_zeroes bs + S (length rest) = 32)%nat).
    { apply (f_equal (@length byte)) in Hrest.
      rewrite length_skipn in Hrest. cbn [length] in Hrest. lia. }
    pose proof (leading_zeroes_head bs b rest Hrest) as Hb.
    pose proof (byte_to_Z_range b) as Hbr.
    pose proof (be_value_range rest) as Hr.
    pose proof (be_value_range (b :: rest)) as Hv.
    assert (Hlow : 256 ^ Z.of_nat (length rest) <= be_value (b :: rest)).
    { rewrite be_value_cons.
      assert (0 < 256 ^ Z.of_nat (length rest)) by (apply Z.pow_pos_nonneg; lia).
      nia. }
    assert (Hpos : 0 < be_value (b :: rest)).
    { assert (0 < 256 ^ Z.of_nat (length rest)) by (apply Z.pow_pos_nonneg; lia).
      lia. }
    pose proof (base58_digits_count _ Hpos) as Hk. cbv zeta in Hk.
    set (k := length (getBaseXFromBigInt (be_value (b :: rest)) base58_alphabet)) in *.
    cbn [length] in Hv. set (m := length rest) in *.
    split.
    + destruct (Nat.le_gt_cases (S m) k) as [H|H]; [lia|].
      exfalso.
      assert (58 ^ Z.of_nat k <= 58 ^ Z.of_nat m)
        by (apply Z.pow_le_mono_r; lia).
      assert (58 ^ Z.of_nat m <= 256 ^ Z.of_nat m)
        by (apply Z.pow_le_mono_l; lia).
      lia.
    + destruct (Nat.le_gt_cases k (S m + 12)) as [H|H]; [lia|].
      exfalso.
      assert (58 ^ (Z.of_nat (S m) + 12) <= 58 ^ (Z.of_nat k - 1))
        by (apply Z.pow_le_mono_r; lia).
      pose proof (pow_256_58 (S m) ltac:(lia)).
      lia.
Qed.

Lemma base58_text_in_alphabet (bs : bytes) :
  Forall (fun c => In c base58_alphabet) (baseX_text base58_alphabet bs).
Proof.
  unfold baseX_text.
  assert (Hones : forall n,
    Forall (fun c => In c base58_alphabet) (repeat (nth 0 base58_alphabet 0) n)).
  { intros n. apply Forall_forall. intros c Hc.
    apply repeat_spec in Hc. subst c. apply nth_In.
    rewrite base58_alphabet_length. lia. }
  destruct (leading_zeroes bs =? length bs)%nat; [apply Hones|].
  apply Forall_app. split; [apply Hones|].
  apply base58_digits_in_alphabet.
  fold (be_value (skipn (leading_zeroes bs) bs)). apply be_value_range.
Qed.

(** X6: The authority of a decoded account.  The authority the account
    decoder returns is always an address in its textual form: 32 to 44
    characters, all of the base-58 alphabet; and two inputs get the same
    authority only if their first 32 bytes are the same. *)
Theorem account_decode_authority (bs : bytes) (a : DataStorageAccount) :
  decode getDataStorageAccountDecoder bs = Ok a ->
  (32 <= length (acc_authority a) <= 44)%nat /\
  Forall (fun c => In c base58_alphabet) (acc_authority a) /\
  (forall (bs' : bytes) (a' : DataStorageAccount),
      decode getDataStorageAccountDecoder bs' = Ok a' ->
      acc_authority a' = acc_authority a ->
      firstn 32 bs' = firstn 32 bs).
Proof.
  assert (Hview : forall bs0 a0,
    decode getDataStorageAccountDecoder bs0 = Ok a0 ->
    acc_authority a0 = baseX_text base58_alphabet (firstn 32 bs0) /\
    length (firstn 32 bs0) = 32%nat).
  { intros bs0 a0 Hdec.
    assert (acc_authority a0 = baseX_text base58_alphabet (slice bs0 0 32) /\
            (72 <= length bs0)%nat) as [-> H72].
    { destruct (account_decode_inv bs0 a0 Hdec) as [[H ->]|[H [_ ->]]];
        split; try reflexivity; lia. }
    split; [reflexivity | rewrite length_firstn; lia]. }
  intros Hdec. destruct (Hview bs a Hdec) as [Hauth Hlen]. rewrite Hauth.
  split; [apply base58_text_length; exact Hlen|].
  split; [apply base58_text_in_alphabet|].
  intros bs' a' Hdec' Heq. destruct (Hview bs' a' Hdec') as [Hauth' Hlen'].
  rewrite Hauth' in Heq.
  apply base58_text_injective; [lia | exact Heq].
Qed.

Lemma account_decode_authority_witness :
  decode getDataStorageAccountDecoder (repeat x00 31 ++ repeat x01 41)
  = Ok (account_view (repeat x00 31 ++ repeat x01 41) 0) /\
  (32 <= length (acc_authority
                   (account_view (repeat x00 31 ++ repeat x01 41) 0)) <= 44)%nat.
Proof.
  split; [vm_compute; reflexivity|].
  apply (account_decode_authority (repeat x00 31 ++ repeat x01 41)).
  vm_compute. reflexivity.
Defined.

(** ** Labels that are stored in full *)

Lemma utf8_encode_scalar_length (c : Z) :
  (length (utf8_encode_scalar c) <= 4)%nat /\
  (c <= 0xFFFF -> (length (utf8_encode_scalar c) <= 3)%nat) /\
  (0 <= c <= 0x7F -> utf8_encode_scalar c = [c]).
Proof.
  unfold utf8_encode_scalar. split_tests; cbn [length]; repeat split; intros;
    solve [lia | reflexivity].
Qed.

Lemma TextEncoder_encode_cons_length (c : Z) (cs : list Z) :
  length (map byte_of_Z (utf8_encode_scalars (c :: cs)))
  = (length (utf8_encode_scalar c)
     + length (map byte_of_Z (utf8_encode_scalars cs)))%nat.
Proof.
  unfold utf8_encode_scalars. cbn [flat_map].
  rewrite !length_map, length_app. reflexivity.
Qed.

(** A code unit takes at most three bytes: one to three for a character
    of the basic plane or a lone surrogate, four for a surrogate pair. *)
Lemma TextEncoder_encode_length (n : nat) :
  forall s : jsstring,
    (length s <= n)%nat ->
    Forall (fun c => c <= 0xFFFF) s ->
    (length (TextEncoder_encode s) <= 3 * length s)%nat.
Proof.
  unfold TextEncoder_encode.
  induction n as [|n IH]; intros s Hlen Hs.
  - destruct s; [cbn; lia | cbn [length] in Hlen; lia].
  - destruct s as [|c rest]; [cbn; lia|].
    cbn [length] in Hlen. inversion Hs as [|? ? Hc Hrest]; subst.
    cbn [to_scalars].
    destruct (is_high_surrogate c).
    + destruct rest as [|d rest'].
      * cbn. lia.
      * inversion Hrest as [|? ? Hd Hrest']; subst. cbn [length] in Hlen.
        destruct (is_low_surrogate d).
        -- rewrite TextEncoder_encode_cons_length.
           pose proof (IH rest' ltac:(lia) Hrest').
           pose proof (utf8_encode_scalar_length
                         (0x10000 + Z.shiftl (c - 0xD800) 10 + (d - 0xDC00)))
             as [H4 _].
           cbn [length]. lia.
        -- rewrite TextEncoder_encode_cons_length.
           pose proof (IH (d :: rest') ltac:(cbn [length]; lia) Hrest).
           change (length (utf8_encode_scalar 0xFFFD)) with 3%nat.
           cbn [length] in *. lia.
    + assert (Hstep : forall x, x <= 0xFFFF ->
        (length (map byte_of_Z (utf8_encode_scalars (x :: to_scalars rest)))
         <= 3 * S (length rest))%nat).
      { intros x Hx. rewrite TextEncoder_encode_cons_length.
        pose proof (IH rest ltac:(lia) Hrest).
        pose proof (utf8_encode_scalar_length x) as [_ [H3 _]].
        specialize (H3 Hx). lia. }
      cbn [length]. destruct (is_low_surrogate c); apply Hstep; lia.
Qed.

Lemma TextEncoder_encode_ascii (s : jsstring) :
  Forall (fun c => 0 <= c <= 0x7F) s ->
  TextEncoder_encode s = map byte_of_Z s.
Proof.
  unfold TextEncoder_encode, utf8_encode_scalars.
  induction 1 as [|c rest Hc Hrest IH]; [reflexivity|].
  cbn [to_scalars].
  unfold is_high_surrogate, is_low_surrogate. settle_tests.
  cbn [flat_map map].
  destruct (utf8_encode_scalar_length c) as [_ [_ Hone]].
  rewrite (Hone Hc). cbn [app map]. rewrite <- IH. reflexivity.
Qed.

(** X7: Labels stored in full.  A label of at most 10 UTF-16 code units
    never exceeds the 30-byte slot, so the Create instruction carries its
    whole UTF-8 encoding, padded with zeros; and an ASCII label of at
    most 30 characters is carried as its characters, one byte each,
    padded with zeros. *)
Theorem create_short_label_in_full (p : CreateParams) :
  (Forall (fun c => c <= 0xFFFF) (cp_label p) ->
   (length (cp_label p) <= 10)%nat ->
   exists ix,
     getCreateDataStorageAccountInstruction p = Ok ix /\
     data ix =
       x00 :: TextEncoder_encode (cp_label p)
           ++ repeat x00 (30 - length (TextEncoder_encode (cp_label p)))
           ++ cp_data p) /\
  (Forall (fun c => 0 <= c <= 0x7F) (cp_label p) ->
   (length (cp_label p) <= 30)%nat ->
   exists ix,
     getCreateDataStorageAccountInstruction p = Ok ix /\
     data ix =
       x00 :: map byte_of_Z (cp_label p)
           ++ repeat x00 (30 - length (cp_label p))
           ++ cp_data p).
Proof.
  split.
  - intros Hunits Hlen. rewrite create_instruction.
    eexists. split; [reflexivity|]. cbn [data]. unfold label_slot.
    pose proof (TextEncoder_encode_length _ _ (le_n _) Hunits).
    rewrite pad_or_truncate_short by lia.
    rewrite <- app_assoc. reflexivity.
  - intros Hascii Hlen. rewrite create_instruction.
    eexists. split; [reflexivity|]. cbn [data]. unfold label_slot.
    rewrite TextEncoder_encode_ascii by exact Hascii.
    rewrite pad_or_truncate_short by (rewrite length_map; lia).
    rewrite <- app_assoc, length_map. reflexivity.
Qed.

Lemma create_short_label_in_full_witness :
  (Forall (fun c => c <= 0xFFFF) euro_e_acute /\
   (length euro_e_acute <= 10)%nat) /\
  exists ix,
    getCreateDataStorageAccountInstruction (sample_create euro_e_acute [x07])
    = Ok ix /\
    data ix = [x00; xe2; x82; xac; xc3; xa9] ++ repeat x00 25 ++ [x07].
Proof.
  assert (Hunits : Forall (fun c => c <= 0xFFFF) euro_e_acute)
    by (repeat constructor; lia).
  split; [split; [exact Hunits | cbn; lia]|].
  destruct (proj1 (create_short_label_in_full
                     (sample_create euro_e_acute [x07])) Hunits)
    as [ix [Hix Hdata]]; [cbn; lia|].
  exists ix. split; [exact Hix | exact Hdata].
Defined.

(** ** The label of a Create instruction, read back *)

(** The decoder of the account's label, run on the payload of a Create
    instruction where its label is. *)
Lemma create_label_read_back (p : CreateParams) :
  exists ix,
    getCreateDataStorageAccountInstruction p = Ok ix /\
    dec_read (fixDecoderSize getUtf8Decoder 30) (data ix) 1
    = Ok (removeNullCharacters (TextDecoder_decode (label_slot (cp_label p))),
          31%nat).
Proof.
  rewrite create_instruction. eexists. split; [reflexivity|].
  cbn [data].
  rewrite fix_read_ok.
  - change (x00 :: label_slot (cp_label p) ++ cp_data p)
      with ([x00] ++ label_slot (cp_label p) ++ cp_data p).
    rewrite (slice_mid [x00] (label_slot (cp_label p)) (cp_data p) 1 30);
      [reflexivity | reflexivity |].
    unfold label_slot. apply pad_or_truncate_length.
  - reflexivity.
  - cbn [length]. rewrite length_app. unfold label_slot.
    rewrite pad_or_truncate_length. lia.
Qed.

(** X8: A label written and read back.  For a label that is well-formed
    text of at most 30 UTF-8 bytes, without NUL and without a leading
    byte order mark, the label decoder of the account, run on the payload
    of the Create instruction at the label's offset, returns the label
    and the offset 31 of the data. *)
Theorem create_label_roundtrip (p : CreateParams) :
  plain_text (cp_label p) = true ->
  (length (TextEncoder_encode (cp_label p)) <= 30)%nat ->
  exists ix,
    getCreateDataStorageAccountInstruction p = Ok ix /\
    dec_read (fixDecoderSize getUtf8Decoder 30) (data ix) 1
    = Ok (cp_label p, 31%nat).
Proof.
  intros Hplain Hlen.
  destruct (create_label_read_back p) as [ix [Hix Hread]].
  exists ix. split; [exact Hix|]. rewrite Hread.
  unfold label_slot. rewrite pad_or_truncate_short by exact Hlen.
  rewrite decode_padded_label by exact Hplain. reflexivity.
Qed.

Lemma create_label_roundtrip_witness :
  (plain_text euro_smile = true /\
   (length (TextEncoder_encode euro_smile) <= 30)%nat) /\
  exists ix,
    getCreateDataStorageAccountInstruction
      (sample_create euro_smile [x07]) = Ok ix /\
    dec_read (fixDecoderSize getUtf8Decoder 30) (data ix) 1
    = Ok (euro_smile, 31%nat).
Proof.
  split; [split; [reflexivity | cbn; lia]|].
  apply (create_label_roundtrip (sample_create euro_smile [x07]));
    [reflexivity | cbn; lia].
Defined.

(** ** A label cut inside a character *)








(** ** What a Create instruction keeps of its parameters *)

Lemma app_inj_length {A : Type} (a b c d : list A) :
  length a = length b -> a ++ c = b ++ d -> a = b /\ c = d.
Proof.
  revert b. induction a as [|x a IH]; intros [|y b] Hlen Heq;
    try discriminate; [auto|].
  injection Hlen as Hlen. injection Heq as -> Heq.
  destruct (IH b Hlen Heq) as [-> ->]. auto.
Qed.

(** X10: What a Create instruction keeps of its parameters.  Two calls
    of the Create builder return the same instruction exactly when they
    have the same account address, authority, funding account and data,
    and labels whose UTF-8 bytes, cut or zero-padded to 30, are the same:
    of a label nothing beyond its first 30 bytes reaches the
    instruction, and within them a trailing NUL is not told from the
    padding. *)
Theorem create_instruction_same (p q : CreateParams) :
  getCreateDataStorageAccountInstruction p
  = getCreateDataStorageAccountInstruction q
  <->
  cp_new_data_storage_pda p = cp_new_data_storage_pda q /\
  cp_data_storage_authority p = cp_data_storage_authority q /\
  cp_funding_account p = cp_funding_account q /\
  cp_data p = cp_data q /\
  pad_or_truncate 30 (TextEncoder_encode (cp_label p))
  = pad_or_truncate 30 (TextEncoder_encode (cp_label q)).
Proof.
  rewrite !create_instruction. unfold label_slot. split.
  - intros Heq. injection Heq as Hpda Hauth Hfund Hdata.
    apply app_inj_length in Hdata; [|rewrite !pad_or_truncate_length; reflexivity].
    destruct Hdata as [Hslot Hdata]. auto.
  - intros [-> [-> [-> [-> ->]]]]. reflexivity.
Qed.

Lemma create_instruction_same_witness :
  (pad_or_truncate 30 (TextEncoder_encode long_label_a)
   = pad_or_truncate 30 (TextEncoder_encode long_label_b) /\
   long_label_a <> long_label_b) /\
  getCreateDataStorageAccountInstruction (sample_create long_label_a [x07])
  = getCreateDataStorageAccountInstruction (sample_create long_label_b [x07]).
Proof.
  split; [split; [vm_compute; reflexivity | vm_compute; discriminate]|].
  apply (proj2 (create_instruction_same
                  (sample_create long_label_a [x07])
                  (sample_create long_label_b [x07]))).
  split; [vm_compute; reflexivity|].
  split; [vm_compute; reflexivity|].
  split; [vm_compute; reflexivity|].
  split; vm_compute; reflexivity.
Defined.
